(** * ai-agent-hub/backend/server.js: session store, mail tools, agent turn
      and MIME envelope builder

    A shallow embedding of the conversational core of [server.js]:
    - JavaScript strings are sequences of UTF-16 code units ([list N]);
      [Buffer.from(s, "utf-8")] is the UTF-8 encoder [utf8_encode] and
      [buf.toString("base64")] is [base64_encode] (RFC 4648, padded);
    - the two module-level [Map]s are kept as the code has them:
      [conversationAttachments] in insertion order (the mail tools iterate
      it with [entries()]), [conversationHistories] as a finite map;
    - everything outside the process (the clock, the environment variable
      [GMAIL_USER], the Gmail service, the reasoning backend) is an explicit
      argument. *)

From Stdlib Require Import NArith ZArith Ascii String Lia ZifyNat ZifyN.
From stdpp Require Import gmap list.

Local Open Scope N_scope.

(** ** JavaScript strings *)

Module Js.

(** A string value: its UTF-16 code units, each below 65536. *)
Definition JsString := list N.

(** A string literal of the source (ASCII only). *)
Fixpoint lit (s : string) : JsString :=
  match s with
  | EmptyString => []
  | String a r => N_of_ascii a :: lit r
  end.

Definition CRLF : JsString := [13; 10].
Definition dquote : JsString := [34].

(** [arr.join(sep)] on an array of strings. *)
Fixpoint join (sep : JsString) (parts : list JsString) : JsString :=
  match parts with
  | [] => []
  | [p] => p
  | p :: rest => p ++ sep ++ join sep rest
  end.

(** Truthiness of a string: only the empty string is falsy. *)
Definition truthy (s : JsString) : bool :=
  match s with [] => false | _ => true end.

(** [arr.filter(Boolean)] on an array of strings. *)
Definition filter_Boolean (parts : list JsString) : list JsString :=
  List.filter truthy parts.

(** [s.replace(/c/g, d)] for single code units [c] and [d]. *)
Definition replace_all (c d : N) (s : JsString) : JsString :=
  List.map (fun x => if x =? c then d else x) s.

(** [s.replace(/=+$/, empty)]: the first position from which the rest of the
    input is a non-empty run of [=] is the start of the trailing run. *)
Fixpoint strip_trailing_eq (s : JsString) : JsString :=
  match s with
  | [] => []
  | c :: r =>
      match strip_trailing_eq r with
      | [] => if c =? 61 then [] else [c]
      | r' => c :: r'
      end
  end.

(** Decimal digits of a non-negative integer, as [String(n)] prints it. *)
Fixpoint digits (fuel : nat) (n : N) (acc : JsString) : JsString :=
  match fuel with
  | O => acc
  | S f =>
      let acc' := (48 + n mod 10) :: acc in
      if n / 10 =? 0 then acc' else digits f (n / 10) acc'
  end.

Definition decimal (n : N) : JsString := digits (S (N.to_nat (N.log2 n))) n [].

(** Line terminators, which [.] does not match in a regular expression. *)
Definition is_line_terminator (c : N) : bool :=
  (c =? 10) || (c =? 13) || (c =? 8232) || (c =? 8233).

(** White space removed by [String.prototype.trim]. *)
Definition is_white_space (c : N) : bool :=
  (c =? 9) || (c =? 10) || (c =? 11) || (c =? 12) || (c =? 13) || (c =? 32)
  || (c =? 160) || (c =? 5760) || ((8192 <=? c) && (c <=? 8202))
  || (c =? 8232) || (c =? 8233) || (c =? 8239) || (c =? 8287)
  || (c =? 12288) || (c =? 65279).

Fixpoint trim_start (s : JsString) : JsString :=
  match s with
  | c :: r => if is_white_space c then trim_start r else s
  | [] => []
  end.

Definition trim (s : JsString) : JsString :=
  rev (trim_start (rev (trim_start s))).

(** [s.split(",")]: always at least one piece. *)
Fixpoint split_comma (s : JsString) : list JsString :=
  match s with
  | [] => [[]]
  | c :: r =>
      if c =? 44 then [] :: split_comma r
      else match split_comma r with
           | p :: ps => (c :: p) :: ps
           | [] => [[c]]
           end
  end.

(** [prefix] at the start of [s]: the rest after it. *)
Fixpoint strip_prefix (prefix s : JsString) : option JsString :=
  match prefix, s with
  | [], _ => Some s
  | p :: ps, c :: r => if c =? p then strip_prefix ps r else None
  | _ :: _, [] => None
  end.

(** The longest prefix of code units other than [c], and the rest. *)
Fixpoint span_not (c : N) (s : JsString) : JsString * JsString :=
  match s with
  | [] => ([], [])
  | x :: r =>
      if x =? c then ([], s)
      else let '(a, b) := span_not c r in (x :: a, b)
  end.

End Js.

Import Js.

(** ** Buffers: UTF-8 and base64 *)

Module Buffer.

(** A buffer: its bytes, each below 256. *)
Definition Bytes := list N.

Definition is_high_surrogate (c : N) : bool := (55296 <=? c) && (c <=? 56319).
Definition is_low_surrogate (c : N) : bool := (56320 <=? c) && (c <=? 57343).

Definition replacement : Bytes := [239; 191; 189].

(** [Buffer.from(s, "utf-8")]: a surrogate pair is one 4-byte sequence, a
    lone surrogate becomes U+FFFD. *)
Fixpoint utf8_encode (s : JsString) : Bytes :=
  match s with
  | [] => []
  | c :: rest =>
      if c <? 128 then c :: utf8_encode rest
      else if c <? 2048 then
        (192 + c / 64) :: (128 + c mod 64) :: utf8_encode rest
      else if is_high_surrogate c then
        match rest with
        | d :: rest' =>
            if is_low_surrogate d then
              let cp := 65536 + (c - 55296) * 1024 + (d - 56320) in
              (240 + cp / 262144) :: (128 + (cp / 4096) mod 64)
              :: (128 + (cp / 64) mod 64) :: (128 + cp mod 64)
              :: utf8_encode rest'
            else replacement ++ utf8_encode rest
        | [] => replacement
        end
      else if is_low_surrogate c then replacement ++ utf8_encode rest
      else
        (224 + (c / 4096) mod 16) :: (128 + (c / 64) mod 64)
        :: (128 + c mod 64) :: utf8_encode rest
  end.

(** The base64 alphabet of RFC 4648: A-Z, a-z, 0-9, [+], [/]. *)
Definition b64_char (i : N) : N :=
  if i <? 26 then 65 + i
  else if i <? 52 then 97 + (i - 26)
  else if i <? 62 then 48 + (i - 52)
  else if i =? 62 then 43
  else 47.

Definition b64_index (c : N) : option N :=
  if (65 <=? c) && (c <=? 90) then Some (c - 65)
  else if (97 <=? c) && (c <=? 122) then Some (c - 97 + 26)
  else if (48 <=? c) && (c <=? 57) then Some (c - 48 + 52)
  else if c =? 43 then Some 62
  else if c =? 47 then Some 63
  else None.

Definition pad : N := 61.

(** [buf.toString("base64")]: three bytes give four characters, the last
    group is padded with [=]. *)
Fixpoint base64_encode (bs : Bytes) : JsString :=
  match bs with
  | [] => []
  | [a] => [b64_char (a / 4); b64_char ((a mod 4) * 16); pad; pad]
  | [a; b] =>
      [b64_char (a / 4); b64_char ((a mod 4) * 16 + b / 16);
       b64_char ((b mod 16) * 4); pad]
  | a :: b :: c :: rest =>
      b64_char (a / 4) :: b64_char ((a mod 4) * 16 + b / 16)
      :: b64_char ((b mod 16) * 4 + c / 64) :: b64_char (c mod 64)
      :: base64_encode rest
  end.

(** Four characters of the alphabet back to three bytes. *)
Definition decode_quad (c0 c1 c2 c3 : N) : option Bytes :=
  match b64_index c0, b64_index c1, b64_index c2, b64_index c3 with
  | Some i0, Some i1, Some i2, Some i3 =>
      Some [i0 * 4 + i1 / 16; (i1 mod 16) * 16 + i2 / 4; (i2 mod 4) * 64 + i3]
  | _, _, _, _ => None
  end.

(** The last group, which may end in one or two [=]. *)
Definition decode_last (c0 c1 c2 c3 : N) : option Bytes :=
  if c3 =? pad then
    if c2 =? pad then
      match b64_index c0, b64_index c1 with
      | Some i0, Some i1 =>
          if i1 mod 16 =? 0 then Some [i0 * 4 + i1 / 16] else None
      | _, _ => None
      end
    else
      match b64_index c0, b64_index c1, b64_index c2 with
      | Some i0, Some i1, Some i2 =>
          if i2 mod 4 =? 0
          then Some [i0 * 4 + i1 / 16; (i1 mod 16) * 16 + i2 / 4]
          else None
      | _, _, _ => None
      end
  else decode_quad c0 c1 c2 c3.

(** The decoder of standard, padded base64 (strict: the length is a
    multiple of four, padding only closes the last group). *)
Fixpoint base64_decode (s : JsString) : option Bytes :=
  match s with
  | [] => Some []
  | c0 :: c1 :: c2 :: c3 :: rest =>
      match rest with
      | [] => decode_last c0 c1 c2 c3
      | _ =>
          match decode_quad c0 c1 c2 c3, base64_decode rest with
          | Some b, Some bs => Some (b ++ bs)
          | _, _ => None
          end
      end
  | _ => None
  end.

(** The URL-safe form the transport expects:
    [.replace(/\+/g, "-").replace(/\//g, "_")], then [.replace(/=+$/, empty)]. *)
Definition url_safe (s : JsString) : JsString :=
  strip_trailing_eq (replace_all 47 95 (replace_all 43 45 s)).

(** Reversing it: [-] back to [+], [_] back to [/], and the padding
    restored to a multiple of four characters. *)
Definition restore_padding (s : JsString) : JsString :=
  s ++ List.repeat pad ((4 - length s mod 4) mod 4)%nat.

Definition url_unsafe (s : JsString) : JsString :=
  restore_padding (replace_all 45 43 (replace_all 95 47 s)).

Definition base64url_decode (s : JsString) : option Bytes :=
  base64_decode (url_unsafe s).

End Buffer.

Import Buffer.

(** ** The process's surroundings *)

(** What one tool invocation meets outside the process: the configured
    sender, the clock, and the answers of the Gmail service and of the
    services behind the other registered tools. *)
Record World := {
  GMAIL_USER : JsString;                 (* process.env.GMAIL_USER, as printed *)
  Date_now : N;                          (* Date.now() *)
  messages_send : JsString -> option JsString;
    (* gmail.users.messages.send: [None], or the message of the error *)
  drafts_create : JsString -> JsString + JsString;
    (* gmail.users.drafts.create: the draft id, or the message of the error *)
  other_tool : JsString -> JsString -> JsString
    (* what a registered tool other than the two mail tools returns *)
}.

(** ** The MIME message builder *)

Record Attachment := {
  att_name : JsString;
  att_type : JsString;
  att_data : JsString;
  att_size : N
}.

Module Mime.

Definition is_ascii_letter (c : N) : bool :=
  ((65 <=? c) && (c <=? 90)) || ((97 <=? c) && (c <=? 122)).

(** [/<[a-z][\s\S]*>/i.test(body)]: a [<], directly followed by a letter,
    with a [>] anywhere after that letter. *)
Fixpoint isHtml (body : JsString) : bool :=
  match body with
  | [] => false
  | c :: rest =>
      ((c =? 60) &&
       match rest with
       | d :: rest' => is_ascii_letter d && existsb (N.eqb 62) rest'
       | [] => false
       end)
      || isHtml rest
  end.

Definition contentType (body : JsString) : JsString :=
  if isHtml body then lit "text/html; charset=UTF-8"
  else lit "text/plain; charset=UTF-8".

(** [list.length > 0 ? `Label: ${list.join(", ")}` : empty] *)
Definition list_header (label : string) (l : list JsString) : JsString :=
  if (0 <? length l)%nat then lit label ++ join (lit ", ") l else [].

Definition body_base64 (body : JsString) : JsString :=
  base64_encode (utf8_encode body).

(** The array [messageParts] of [createSimpleEmail], before [.filter]. *)
Definition messageParts (w : World) (to subject body : JsString)
    (cc bcc : list JsString) : list JsString :=
  [ lit "From: " ++ GMAIL_USER w;
    lit "To: " ++ to;
    list_header "Cc: " cc;
    list_header "Bcc: " bcc;
    lit "Subject: " ++ subject;
    lit "MIME-Version: 1.0";
    lit "Content-Type: " ++ contentType body ++ lit "; charset=" ++ dquote
      ++ lit "UTF-8" ++ dquote;
    lit "Content-Transfer-Encoding: base64";
    [];
    body_base64 body ].

(** The text that [createSimpleEmail] hands to [Buffer.from]. *)
Definition simpleEmailText (w : World) (to subject body : JsString)
    (cc bcc : list JsString) : JsString :=
  join CRLF (filter_Boolean (messageParts w to subject body cc bcc)).

Definition createSimpleEmail (w : World) (to subject body : JsString)
    (cc bcc : list JsString) : JsString :=
  url_safe (base64_encode (utf8_encode (simpleEmailText w to subject body cc bcc))).

(** [str.match(/.{1,76}/g)]: the successive greedy matches; [acc] is the
    match being extended, at most 76 code units, none a line terminator. *)
Fixpoint match_chunks (str acc : JsString) : list JsString :=
  match str with
  | [] => if truthy acc then [acc] else []
  | c :: rest =>
      if is_line_terminator c then
        (if truthy acc then [acc] else []) ++ match_chunks rest []
      else if (length acc <? 76)%nat then match_chunks rest (acc ++ [c])
      else acc :: match_chunks rest [c]
  end.

(** [str.match(/.{1,76}/g)?.join(CRLF) || str] *)
Definition wrapBase64 (str : JsString) : JsString :=
  match match_chunks str [] with
  | [] => str                       (* no match: null?.join is undefined *)
  | chunks => join CRLF chunks
  end.

(** [data.replace(/^data:[^;]+;base64,/, empty)] *)
Definition stripDataUri (data : JsString) : JsString :=
  match strip_prefix (lit "data:") data with
  | Some r =>
      let '(ty, r') := span_not 59 r in
      if truthy ty then
        match strip_prefix (lit ";base64,") r' with
        | Some payload => payload
        | None => data
        end
      else data
  | None => data
  end.

Definition boundary (w : World) : JsString :=
  lit "boundary_" ++ decimal (Date_now w).

Definition headers (w : World) (to subject : JsString)
    (cc bcc : list JsString) : JsString :=
  join CRLF (filter_Boolean
    [ lit "From: " ++ GMAIL_USER w;
      lit "To: " ++ to;
      list_header "Cc: " cc;
      list_header "Bcc: " bcc;
      lit "Subject: " ++ subject;
      lit "MIME-Version: 1.0";
      lit "Content-Type: multipart/mixed; boundary=" ++ dquote
        ++ boundary w ++ dquote ]).

Definition bodyPart (w : World) (body : JsString) : JsString :=
  lit "--" ++ boundary w ++ CRLF
  ++ lit "Content-Type: " ++ contentType body ++ lit "; charset=" ++ dquote
  ++ lit "UTF-8" ++ dquote ++ CRLF
  ++ lit "Content-Transfer-Encoding: base64" ++ CRLF ++ CRLF
  ++ body_base64 body ++ CRLF.

(** The base64 payload of one attachment part. *)
Definition attachmentPayload (att : Attachment) : JsString :=
  let cleanData := stripDataUri (att_data att) in
  wrapBase64 cleanData.

(** The lines of an attachment part before its payload. *)
Definition attachmentHead (w : World) (att : Attachment) : JsString :=
  lit "--" ++ boundary w ++ CRLF
  ++ lit "Content-Type: " ++ att_type att ++ lit "; name=" ++ dquote
  ++ att_name att ++ dquote ++ CRLF
  ++ lit "Content-Disposition: attachment; filename=" ++ dquote
  ++ att_name att ++ dquote ++ CRLF
  ++ lit "Content-Transfer-Encoding: base64" ++ CRLF ++ CRLF.

(** The [for (const att of attachments)] loop, [attachmentParts += ...]. *)
Fixpoint attachmentParts (w : World) (attachments : list Attachment) : JsString :=
  match attachments with
  | [] => []
  | att :: rest =>
      (attachmentHead w att ++ attachmentPayload att ++ CRLF ++ CRLF)
      ++ attachmentParts w rest
  end.

Definition finalMessage (w : World) (to subject body : JsString)
    (cc bcc : list JsString) (attachments : list Attachment) : JsString :=
  headers w to subject cc bcc ++ CRLF ++ CRLF
  ++ bodyPart w body
  ++ attachmentParts w attachments
  ++ lit "--" ++ boundary w ++ lit "--".

Definition createEmailWithAttachments (w : World) (to subject body : JsString)
    (cc bcc : list JsString) (attachments : list Attachment) : JsString :=
  url_safe (base64_encode (utf8_encode (finalMessage w to subject body cc bcc attachments))).

End Mime.

Import Mime.

(** ** Server state *)

Inductive Role := user | assistant.

Record Turn := { role : Role; content : JsString }.

(** An insertion-ordered [Map] with string keys, as [entries()] lists it. *)
Module JsMap.

Section Ops.
Context {V : Type}.

Fixpoint get (k : JsString) (m : list (JsString * V)) : option V :=
  match m with
  | [] => None
  | (k', v) :: r => if decide (k' = k) then Some v else get k r
  end.

Definition has (k : JsString) (m : list (JsString * V)) : bool :=
  match get k m with Some _ => true | None => false end.

(** [m.set(k, v)]: a present key keeps its place, a new one goes last. *)
Fixpoint set (k : JsString) (v : V) (m : list (JsString * V)) : list (JsString * V) :=
  match m with
  | [] => [(k, v)]
  | (k', v') :: r =>
      if decide (k' = k) then (k, v) :: r else (k', v') :: set k v r
  end.

(** [m.delete(k)] *)
Fixpoint delete (k : JsString) (m : list (JsString * V)) : list (JsString * V) :=
  match m with
  | [] => []
  | (k', v') :: r =>
      if decide (k' = k) then delete k r else (k', v') :: delete k r
  end.

End Ops.

End JsMap.

Record Server := {
  tokens : option JsString;      (* [let tokens = null], set by the OAuth callback *)
  conversationAttachments : list (JsString * list Attachment);
  conversationHistories : gmap JsString (list Turn)
}.

(** The turns recorded for a session; a session never seen has none. *)
Definition history (srv : Server) (sessionId : JsString) : list Turn :=
  default [] (conversationHistories srv !! sessionId).

(** The attachments staged for a session, if any. *)
Definition staged (srv : Server) (sessionId : JsString) : option (list Attachment) :=
  JsMap.get sessionId (conversationAttachments srv).

(** ** The mail tools *)

Record MailArgs := {
  to : JsString;
  subject : JsString;
  body : JsString;
  cc : option JsString;
  bcc : option JsString;
  attachments : option (list Attachment)
}.

(** What a tool invocation did: the text it returns to the executor, the
    attachment set it put into the envelope (if it got that far) and the
    [raw] envelope it handed to Gmail (if it got that far). *)
Record ToolOutcome := {
  observation : JsString;
  finalAttachments : option (list Attachment);
  raw : option JsString
}.

Module Tools.

Definition check_mark : JsString := [9989].     (* U+2705 *)
Definition cross_mark : JsString := [10060].    (* U+274C *)

(** The message of the error [ensureAuthenticated] throws. *)
Definition not_authenticated : JsString :=
  lit "Not authenticated with Google. Visit /auth/google".

(** [x ? x.split(',').map(e => e.trim()) : []] *)
Definition recipientList (x : option JsString) : list JsString :=
  match x with
  | Some s => if truthy s then List.map trim (split_comma s) else []
  | None => []
  end.

(** The loop over [conversationAttachments.entries()]: the first entry with
    a non-empty array replaces [finalAttachments] and ends the loop. *)
Fixpoint scanStaged (entries : list (JsString * list Attachment))
    (finalAttachments : list Attachment) : list Attachment :=
  match entries with
  | [] => finalAttachments
  | (sessionId, sessionAttachments) :: rest =>
      if (0 <? length sessionAttachments)%nat then sessionAttachments
      else scanStaged rest finalAttachments
  end.

(** [let finalAttachments = attachments || []; for (...) {...}] *)
Definition selectAttachments (srv : Server) (a : MailArgs) : list Attachment :=
  scanStaged (conversationAttachments srv) (default [] (attachments a)).

(** The [raw] envelope both tools build. *)
Definition buildRaw (w : World) (a : MailArgs) (final : list Attachment) : JsString :=
  let ccList := recipientList (cc a) in
  let bccList := recipientList (bcc a) in
  if (0 <? length final)%nat
  then createEmailWithAttachments w (to a) (subject a) (body a) ccList bccList final
  else createSimpleEmail w (to a) (subject a) (body a) ccList bccList.

Definition with_attachments (final : list Attachment) : JsString :=
  if (0 <? length final)%nat
  then lit " with " ++ decimal (N.of_nat (length final)) ++ lit " attachment(s)"
  else [].

Definition sendEmailTool (srv : Server) (w : World) (a : MailArgs) : ToolOutcome :=
  match tokens srv with
  | None =>
      {| observation := cross_mark ++ lit " Error sending email: " ++ not_authenticated;
         finalAttachments := None; raw := None |}
  | Some _ =>
      let final := selectAttachments srv a in
      let r := buildRaw w a final in
      {| observation :=
           match messages_send w r with
           | None =>
               check_mark ++ lit " Email sent successfully to " ++ to a
               ++ with_attachments final
           | Some message => cross_mark ++ lit " Error sending email: " ++ message
           end;
         finalAttachments := Some final; raw := Some r |}
  end.

Definition draftEmailTool (srv : Server) (w : World) (a : MailArgs) : ToolOutcome :=
  match tokens srv with
  | None =>
      {| observation := cross_mark ++ lit " Error creating draft: " ++ not_authenticated;
         finalAttachments := None; raw := None |}
  | Some _ =>
      let final := selectAttachments srv a in
      let r := buildRaw w a final in
      {| observation :=
           match drafts_create w r with
           | inl id =>
               check_mark ++ lit " Draft created successfully (ID: " ++ id ++ lit ")"
               ++ with_attachments final
           | inr message => cross_mark ++ lit " Error creating draft: " ++ message
           end;
         finalAttachments := Some final; raw := Some r |}
  end.

End Tools.

Import Tools.

(** ** The agent executor *)

(** A tool call the reasoning backend requests. *)
Inductive ToolCall :=
| send_email (a : MailArgs)
| draft_email (a : MailArgs)
| registry_tool (name args : JsString).   (* any of the other tools *)

Record AgentStep := { action : ToolCall; outcome : ToolOutcome }.

(** What the reasoning backend answers: a final answer, tool calls, or the
    call to it fails. *)
Inductive AgentPlan :=
| AgentFinish (output : JsString)
| AgentActions (calls : list ToolCall)
| PlanError (message : JsString).

Record AgentInput := { input : JsString; chat_history : list JsString }.

(** The reasoning backend is a black box: any function of what it is sent. *)
Definition Backend := AgentInput -> list AgentStep -> AgentPlan.

(** The world each tool invocation of a turn meets, by its position. *)
Definition Environment := nat -> World.

Inductive Completion :=
| Returned (output : JsString)      (* [executor.invoke] resolves *)
| Thrown (message : JsString).      (* [executor.invoke] rejects *)

Record Run := {
  completion : Completion;
  steps : list AgentStep;       (* tool invocations, in order *)
  plans : nat;                  (* calls to the reasoning backend *)
  rounds : nat;                 (* Reasoning -> ToolDispatch round trips *)
  stopped : bool                (* ended by the iteration cap *)
}.

Module Agent.

Definition invokeTool (srv : Server) (w : World) (c : ToolCall) : ToolOutcome :=
  match c with
  | send_email a => sendEmailTool srv w a
  | draft_email a => draftEmailTool srv w a
  | registry_tool name args =>
      {| observation := other_tool w name args;
         finalAttachments := None; raw := None |}
  end.

(** The calls of one round, in request order, first to last. *)
Fixpoint dispatch (srv : Server) (env : Environment) (k : nat)
    (calls : list ToolCall) : list AgentStep :=
  match calls with
  | [] => []
  | c :: rest =>
      {| action := c; outcome := invokeTool srv (env k) c |}
      :: dispatch srv env (S k) rest
  end.

Record AgentExecutor := { maxIterations : nat }.

(** [new AgentExecutor({ agent, tools, verbose: false, maxIterations: 8 })] *)
Definition createAgentExecutor : AgentExecutor := {| maxIterations := 8 |}.

Definition stopped_message : JsString :=
  lit "Agent stopped due to max iterations.".

(** Modelled from the spec: the loop of the [AgentExecutor] class, which
    [server.js] imports from [langchain/agents] and which is not under
    [src/]. Section 4.3: Reasoning, then either a terminal answer (Done) or
    ToolDispatch and back to Reasoning; the loop is bounded by the
    iteration cap, past which the executor surfaces a generic failure
    message; a failing backend call fails the run. [left] is the number of
    round trips still allowed. *)
Fixpoint loop (srv : Server) (env : Environment) (backend : Backend)
    (inp : AgentInput) (left : nat) (done : list AgentStep)
    (nplans nrounds : nat) : Run :=
  match left with
  | O =>
      {| completion := Returned stopped_message; steps := done;
         plans := nplans; rounds := nrounds; stopped := true |}
  | S left' =>
      match backend inp done with
      | AgentFinish output =>
          {| completion := Returned output; steps := done;
             plans := S nplans; rounds := nrounds; stopped := false |}
      | PlanError message =>
          {| completion := Thrown message; steps := done;
             plans := S nplans; rounds := nrounds; stopped := false |}
      | AgentActions calls =>
          loop srv env backend inp left'
            (done ++ dispatch srv env (length done) calls)
            (S nplans) (S nrounds)
      end
  end.

(** [executor.invoke({ input, chat_history })] *)
Definition invoke (executor : AgentExecutor) (srv : Server) (env : Environment)
    (backend : Backend) (inp : AgentInput) : Run :=
  loop srv env backend inp (maxIterations executor) [] 0 0.

End Agent.

Import Agent.

(** ** The conversation handler *)

Record ChatResult := { message : JsString; success : bool }.

(** One call of [handleConversation]: the state it leaves, what it returns,
    and the executor's run (absent from the source's return value, kept
    here to speak about the tool invocations of the turn). *)
Record TurnResult := {
  server : Server;
  result : ChatResult;
  run : Run
}.

Section Conversation.

(** [(a.size/1024).toFixed(1)]: floating-point formatting, only ever shown
    to the reasoning backend. *)
Variable toFixed1_KB : N -> JsString.

(** [attachments && attachments.length > 0] *)
Definition nonEmpty (attachments : option (list Attachment)) : bool :=
  match attachments with
  | Some l => (0 <? length l)%nat
  | None => false
  end.

Definition attachmentNote (l : list Attachment) : JsString :=
  [10; 10] ++ lit "[User has attached " ++ decimal (N.of_nat (length l))
  ++ lit " file(s): "
  ++ join (lit ", ")
       (List.map (fun a => att_name a ++ lit " (" ++ toFixed1_KB (att_size a) ++ lit "KB)") l)
  ++ lit "]".

(** [chatHistory.map(msg => [..., msg.content]).flat()] *)
Fixpoint formattedHistory (chatHistory : list Turn) : list JsString :=
  match chatHistory with
  | [] => []
  | msg :: rest =>
      (match role msg with user => lit "human" | assistant => lit "assistant" end)
      :: content msg :: formattedHistory rest
  end.

Definition handleConversation (srv : Server) (env : Environment)
    (backend : Backend) (sessionId userMessage : JsString)
    (attachments : option (list Attachment)) : TurnResult :=
  (* if (!conversationHistories.has(sessionId)) conversationHistories.set(sessionId, []) *)
  let histories1 :=
    match conversationHistories srv !! sessionId with
    | Some _ => conversationHistories srv
    | None => <[sessionId := []]> (conversationHistories srv)
    end in
  (* if (attachments && attachments.length > 0) conversationAttachments.set(...) *)
  let attachments1 :=
    if nonEmpty attachments
    then JsMap.set sessionId (default [] attachments) (conversationAttachments srv)
    else conversationAttachments srv in
  let srv1 := {| tokens := tokens srv;
                 conversationAttachments := attachments1;
                 conversationHistories := histories1 |} in
  let chatHistory := default [] (histories1 !! sessionId) in
  let executor := createAgentExecutor in
  let inputMessage :=
    if nonEmpty attachments
    then userMessage ++ attachmentNote (default [] attachments)
    else userMessage in
  let r := invoke executor srv1 env backend
             {| input := inputMessage; chat_history := formattedHistory chatHistory |} in
  match completion r with
  | Returned assistantOutput =>
      let chatHistory' :=
        chatHistory ++ [ {| role := user; content := userMessage |};
                         {| role := assistant; content := assistantOutput |} ] in
      {| server :=
           {| tokens := tokens srv;
              conversationAttachments :=
                if JsMap.has sessionId attachments1
                then JsMap.delete sessionId attachments1 else attachments1;
              conversationHistories := <[sessionId := chatHistory']> histories1 |};
         result := {| message := assistantOutput; success := true |};
         run := r |}
  | Thrown err_message =>
      {| server := srv1;
         result := {| message := lit "Error: " ++ err_message; success := false |};
         run := r |}
  end.

(** ** The chat endpoint *)

Record ChatBody := {
  body_message : option JsString;
  body_sessionId : option JsString;
  body_attachments : option (list Attachment)
}.

Record Response := { status : N; json : ChatResult }.

(** [!x] for an optional string: absent or empty. *)
Definition falsy (x : option JsString) : bool :=
  match x with Some s => negb (truthy s) | None => true end.

Definition warning_sign : JsString := [9888; 65039].   (* U+26A0 U+FE0F *)

(** The message of the [TypeError] that destructuring an undefined
    [req.body] throws. *)
Definition destructure_error : JsString :=
  lit "Cannot destructure property 'message' of 'req.body' as it is undefined.".

(** [app.post("/api/agent/chat", ...)]; [now] is the handler's own reading
    of the clock, [req_body] is [req.body], undefined when no JSON body
    was parsed. *)
Definition chat (srv : Server) (now : N) (env : Environment) (backend : Backend)
    (req_body : option ChatBody) : Server * Response :=
  match req_body with
  | None =>
      (srv, {| status := 500;
               json := {| message := destructure_error; success := false |} |})
  | Some b =>
      if falsy (body_message b) then
        (srv, {| status := 400;
                 json := {| message := lit "Message required"; success := false |} |})
      else
        match tokens srv with
        | None =>
            (srv, {| status := 401;
                     json := {| message := warning_sign ++ lit " Connect Google account first";
                                success := false |} |})
        | Some _ =>
            let sid :=
              if falsy (body_sessionId b) then lit "session_" ++ decimal now
              else default [] (body_sessionId b) in
            let t := handleConversation srv env backend sid
                       (default [] (body_message b)) (body_attachments b) in
            (server t, {| status := 200; json := result t |})
        end
  end.

End Conversation.

(** ** Reading a message back *)

Module Layout.

(** The header lines a single-part message is to carry: From, To, Cc and
    Bcc when their lists are not empty, Subject, MIME-Version,
    Content-Type and Content-Transfer-Encoding. *)
Definition headerLines (w : World) (to subject body : JsString)
    (cc bcc : list JsString) : list JsString :=
  [ lit "From: " ++ GMAIL_USER w; lit "To: " ++ to ]
  ++ (if (0 <? length cc)%nat then [lit "Cc: " ++ join (lit ", ") cc] else [])
  ++ (if (0 <? length bcc)%nat then [lit "Bcc: " ++ join (lit ", ") bcc] else [])
  ++ [ lit "Subject: " ++ subject;
       lit "MIME-Version: 1.0";
       lit "Content-Type: " ++ contentType body ++ lit "; charset=" ++ dquote
         ++ lit "UTF-8" ++ dquote;
       lit "Content-Transfer-Encoding: base64" ].

Definition headerBlock (w : World) (to subject body : JsString)
    (cc bcc : list JsString) : JsString :=
  join CRLF (headerLines w to subject body cc bcc).

(** The layout the specification gives the single-part message: the header
    block, a blank line, the base64 body. *)
Definition blankLineLayout (w : World) (to subject body : JsString)
    (cc bcc : list JsString) : JsString :=
  headerBlock w to subject body cc bcc ++ CRLF ++ CRLF ++ body_base64 body.

(** A message read back: what stands before the first blank line (the
    header block) and what stands after it; [None] when there is no blank
    line. *)
Fixpoint split_blank_line (s : JsString) : option (JsString * JsString) :=
  match s with
  | [] => None
  | c :: r =>
      match strip_prefix (CRLF ++ CRLF) s with
      | Some rest => Some ([], rest)
      | None =>
          match split_blank_line r with
          | Some (h, b) => Some (c :: h, b)
          | None => None
          end
      end
  end.

(** The lines of a text: the runs between line terminators. *)
Fixpoint split_lines (s : JsString) : list JsString :=
  match s with
  | [] => [[]]
  | c :: r =>
      if is_line_terminator c then [] :: split_lines r
      else match split_lines r with
           | l :: ls => (c :: l) :: ls
           | [] => [[c]]
           end
  end.

Definition not_line_terminator (c : N) : bool := negb (is_line_terminator c).

(** The characters of a text other than its line breaks. *)
Definition unwrapped (s : JsString) : JsString :=
  List.filter not_line_terminator s.

(** Cutting a text into pieces of [n] characters, the last one shorter. *)
Fixpoint chunks_of (fuel n : nat) (s : JsString) : list JsString :=
  match fuel with
  | O => []
  | S fuel' =>
      match s with
      | [] => []
      | _ => take n s :: chunks_of fuel' n (drop n s)
      end
  end.

(** Line-wrapping at 76 characters as the specification words it: lines of
    76 characters, joined by CRLF. *)
Definition lineWrap76 (s : JsString) : JsString :=
  join CRLF (chunks_of (length s) 76 s).

(** A leading data-URI prefix [data:<type>;base64,], the type not empty
    and free of [;]. *)
Definition dataUriPrefix (p : JsString) : Prop :=
  exists ty, p = lit "data:" ++ ty ++ lit ";base64,"
             /\ ty <> [] /\ Forall (fun c => c <> 59) ty.

End Layout.

Import Layout.

(** ** Vocabulary of the statements *)

(** A character of the base64 alphabet. *)
Definition alphabetic (c : N) : Prop := exists i, b64_index c = Some i.

(** A byte value. *)
Definition byte (b : N) : Prop := b < 256.

(** The output of the encoder: alphabet characters, then at most two [=],
    a multiple of four characters in all. *)
Definition padded_form (s : JsString) : Prop :=
  exists core k,
    s = core ++ List.repeat pad k /\ Forall alphabetic core /\
    ((length core + k) mod 4 = 0)%nat /\ (k <= 2)%nat.

(** A text without line terminators. *)
Definition plain (s : JsString) : Prop :=
  Forall (fun c => is_line_terminator c = false) s.

(** The chunks [match_chunks] yields: free of line terminators, between 1
    and 76 characters, and together the characters of the input that are
    not line terminators. *)
Definition chunk (s : JsString) : Prop :=
  plain s /\ (1 <= length s <= 76)%nat.

(** A header value that cannot break its line: no carriage return in it. *)
Definition no_CR (s : JsString) : Prop := Forall (fun c => c <> 13) s.

(** A line of a header block: not empty, and without carriage return. *)
Definition header_line (s : JsString) : Prop := s <> [] /\ no_CR s.

(** ** Speaking about turns *)

Definition is_mail_call (c : ToolCall) : bool :=
  match c with
  | send_email _ | draft_email _ => true
  | registry_tool _ _ => false
  end.

(** An entry of the staging map that holds no attachment. *)
Definition nothing_staged (e : JsString * list Attachment) : Prop := e.2 = [].

(** The state a turn runs its executor in: the history entry created, the
    attachments of the request staged. *)
Definition during (srv : Server) (sessionId : JsString)
    (attachments : option (list Attachment)) : Server :=
  {| tokens := tokens srv;
     conversationAttachments :=
       if nonEmpty attachments
       then JsMap.set sessionId (default [] attachments) (conversationAttachments srv)
       else conversationAttachments srv;
     conversationHistories :=
       match conversationHistories srv !! sessionId with
       | Some _ => conversationHistories srv
       | None => <[sessionId := []]> (conversationHistories srv)
       end |}.

(** The executor's run of a turn. *)
Definition turnRun (toFixed1_KB : N -> JsString) (srv : Server) (env : Environment)
    (backend : Backend) (sessionId userMessage : JsString)
    (attachments : option (list Attachment)) : Run :=
  invoke createAgentExecutor (during srv sessionId attachments) env backend
    {| input := if nonEmpty attachments
                then userMessage ++ attachmentNote toFixed1_KB (default [] attachments)
                else userMessage;
       chat_history := formattedHistory (history (during srv sessionId attachments) sessionId) |}.

(** At-most-once consumption as the specification states it, for the set
    a turn staged: after the turn the session has nothing staged, and no
    two tool invocations of the turn were offered the set. *)
Definition consumed_at_most_once (t : TurnResult) (sessionId : JsString)
    (set : list Attachment) : Prop :=
  staged (server t) sessionId = None
  /\ forall i j s1 s2,
       steps (run t) !! i = Some s1 -> steps (run t) !! j = Some s2 ->
       finalAttachments (outcome s1) = Some set ->
       finalAttachments (outcome s2) = Some set ->
       i = j.

(** A step of a run is the invocation of its tool on the server state the
    run was started with. *)
Definition dispatched (srv : Server) (env : Environment) (s : AgentStep) : Prop :=
  exists k, outcome s = invokeTool srv (env k) (action s).

(** One chat request as [handleConversation] receives it, with the
    surroundings it runs in. *)
Record Request := {
  req_sessionId : JsString;
  req_message : JsString;
  req_attachments : option (list Attachment);
  req_env : Environment;
  req_backend : Backend
}.

Section Turns.

Variable toFixed1_KB : N -> JsString.

Definition handleRequest (srv : Server) (r : Request) : TurnResult :=
  handleConversation toFixed1_KB srv (req_env r) (req_backend r)
    (req_sessionId r) (req_message r) (req_attachments r).

(** Requests handled one after the other. *)
Fixpoint handleAll (srv : Server) (reqs : list Request) : Server :=
  match reqs with
  | [] => srv
  | r :: rest => handleAll (server (handleRequest srv r)) rest
  end.

(** The turns one request appends to the history of [sessionId]: the
    user's and the assistant's when it is that session's request and the
    run returned, none otherwise. *)
Definition appendedBy (srv : Server) (r : Request) (sessionId : JsString) : list Turn :=
  if decide (req_sessionId r = sessionId) then
    match completion (run (handleRequest srv r)) with
    | Returned output =>
        [ {| role := user; content := req_message r |};
          {| role := assistant; content := output |} ]
    | Thrown _ => []
    end
  else [].

Fixpoint appendedByAll (srv : Server) (reqs : list Request) (sessionId : JsString)
    : list Turn :=
  match reqs with
  | [] => []
  | r :: rest =>
      appendedBy srv r sessionId
      ++ appendedByAll (server (handleRequest srv r)) rest sessionId
  end.

End Turns.

(** ** Sample surroundings *)

Module Sample.

Definition world (now : N) : World :=
  {| GMAIL_USER := lit "me@x.com"; Date_now := now;
     messages_send := fun _ => None;
     drafts_create := fun _ => inl (lit "r-1");
     other_tool := fun _ _ => lit "ok" |}.

Definition env : Environment := fun k => world (1730000000000 + N.of_nat k).

Definition f_txt : Attachment :=
  {| att_name := lit "f.txt"; att_type := lit "text/plain";
     att_data := lit "data:text/plain;base64,QUJD"; att_size := 3 |}.

Definition hello : MailArgs :=
  {| to := lit "a@x.com"; subject := lit "Hi"; body := lit "Hello";
     cc := None; bcc := None; attachments := None |}.

Definition g_txt : Attachment :=
  {| att_name := lit "g.txt"; att_type := lit "text/plain";
     att_data := lit "REVG"; att_size := 3 |}.

Definition toFixed1_KB (size : N) : JsString := lit "0.0".

(** An authorized server with nothing staged and no history. *)
Definition fresh : Server :=
  {| tokens := Some (lit "ya29.token");
     conversationAttachments := [];
     conversationHistories := ∅ |}.

(** A backend that asks for the same mail to be sent twice, then answers. *)
Definition sends_twice : Backend := fun _ done =>
  match done with
  | [] => AgentActions [send_email hello; send_email hello]
  | _ => AgentFinish (lit "Sent.")
  end.

(** A backend that asks for a mail, then fails. *)
Definition sends_then_fails : Backend := fun _ done =>
  match done with
  | [] => AgentActions [send_email hello]
  | _ => PlanError (lit "network")
  end.

(** A backend whose first call fails. *)
Definition unreachable : Backend := fun _ _ => PlanError (lit "network").

(** A backend that never stops asking for a tool. *)
Definition never_done : Backend := fun _ _ =>
  AgentActions [registry_tool (lit "list_emails") (lit "{}")].

(** A backend that answers at once. *)
Definition answers : Backend := fun _ _ => AgentFinish (lit "Hello!").

End Sample.

(** ** Further vocabulary *)

Module Reading.

(** A character of the URL-safe base64 alphabet: a letter, a digit, [-]
    or [_]. *)
Definition url_safe_char (c : N) : bool :=
  is_ascii_letter c || ((48 <=? c) && (c <=? 57)) || (c =? 45) || (c =? 95).

(** A character a boundary is made of: a lower-case letter, a digit or
    [_]. *)
Definition boundary_char (c : N) : bool :=
  ((97 <=? c) && (c <=? 122)) || ((48 <=? c) && (c <=? 57)) || (c =? 95).

(** The lines of a text whose lines end in CRLF, as [text.split(CRLF)]
    gives them. *)
Fixpoint crlf_lines (s : JsString) : list JsString :=
  match s with
  | [] => [[]]
  | c :: r =>
      match r with
      | d :: rest =>
          if (c =? 13) && (d =? 10) then [] :: crlf_lines rest
          else match crlf_lines r with
               | l :: ls => (c :: l) :: ls
               | [] => [[c]]
               end
      | [] => [[c]]
      end
  end.

(** The number a string of decimal digits writes. *)
Definition parse_decimal (s : JsString) : N :=
  fold_left (fun a c => a * 10 + (c - 48)) s 0.

(** A text is white space only. *)
Definition blank (s : JsString) : Prop :=
  Forall (fun c => is_white_space c = true) s.

(** A text has no comma. *)
Definition comma_free (s : JsString) : Prop := Forall (fun c => c <> 44) s.

(** A text neither starts nor ends with white space. *)
Definition trimmed (s : JsString) : Prop :=
  match s with
  | [] => True
  | c :: r => is_white_space c = false /\ is_white_space (List.last r c) = false
  end.

(** One recipient as it is typed between two commas: white space, the
    address, white space. *)
Record Typed := { before : JsString; address : JsString; after : JsString }.

Definition typed_text (t : Typed) : JsString := before t ++ address t ++ after t.

Definition well_typed (t : Typed) : Prop :=
  blank (before t) /\ blank (after t)
  /\ comma_free (address t) /\ trimmed (address t).

End Reading.

Import Reading.

(** ** The REST mail routes *)

Module Rest.

(** [cc] and [bcc] of a request body: a comma-separated string or an
    array of addresses. *)
Inductive Recipients :=
| AsText (s : JsString)
| AsArray (l : list JsString).

Record MailRequest := {
  mr_to : option JsString;
  mr_subject : option JsString;
  mr_body : option JsString;
  mr_cc : option Recipients;
  mr_bcc : option Recipients;
  mr_attachments : option (list Attachment)
}.

Inductive Reply :=
| reply_error (message : JsString)      (* { error } *)
| reply_success                         (* { success: true } *)
| reply_draft (draftId : JsString).     (* { success: true, draftId } *)

(** What a route answers, and the envelope it handed to Gmail, if any. *)
Record Answer := {
  code : N;
  reply : Reply;
  handed : option JsString
}.

(** [x ? (Array.isArray(x) ? x : x.split(",").map(e => e.trim())) : []] *)
Definition recipients (x : option Recipients) : list JsString :=
  match x with
  | Some (AsArray l) => l
  | Some (AsText s) => if truthy s then List.map trim (split_comma s) else []
  | None => []
  end.

(** [a => ({...a, data: a.data.replace(/^data:[^;]+;base64,/, empty)})] *)
Definition cleaned (a : Attachment) : Attachment :=
  {| att_name := att_name a; att_type := att_type a;
     att_data := stripDataUri (att_data a); att_size := att_size a |}.

(** [attachments?.length ? createEmailWithAttachments(...) : createSimpleEmail(...)] *)
Definition envelope (w : World) (b : MailRequest) : JsString :=
  let ccList := recipients (mr_cc b) in
  let bccList := recipients (mr_bcc b) in
  if nonEmpty (mr_attachments b)
  then createEmailWithAttachments w (default [] (mr_to b)) (default [] (mr_subject b))
         (default [] (mr_body b)) ccList bccList
         (List.map cleaned (default [] (mr_attachments b)))
  else createSimpleEmail w (default [] (mr_to b)) (default [] (mr_subject b))
         (default [] (mr_body b)) ccList bccList.

(** The message of the [TypeError] that destructuring an undefined
    [req.body] throws. *)
Definition destructure_to : JsString :=
  lit "Cannot destructure property 'to' of 'req.body' as it is undefined.".

Definition missing (b : MailRequest) : bool :=
  falsy (mr_to b) || falsy (mr_subject b) || falsy (mr_body b).

(** [app.post("/api/gmail/send", ...)] *)
Definition send (srv : Server) (w : World) (req_body : option MailRequest) : Answer :=
  match tokens srv with
  | None => {| code := 500; reply := reply_error not_authenticated; handed := None |}
  | Some _ =>
      match req_body with
      | None => {| code := 500; reply := reply_error destructure_to; handed := None |}
      | Some b =>
          if missing b then
            {| code := 400; reply := reply_error (lit "Missing fields"); handed := None |}
          else
            let r := envelope w b in
            match messages_send w r with
            | None => {| code := 200; reply := reply_success; handed := Some r |}
            | Some message =>
                {| code := 500; reply := reply_error message; handed := Some r |}
            end
      end
  end.

(** [app.post("/api/gmail/draft", ...)] *)
Definition draft (srv : Server) (w : World) (req_body : option MailRequest) : Answer :=
  match tokens srv with
  | None => {| code := 500; reply := reply_error not_authenticated; handed := None |}
  | Some _ =>
      match req_body with
      | None => {| code := 500; reply := reply_error destructure_to; handed := None |}
      | Some b =>
          if missing b then
            {| code := 400; reply := reply_error (lit "Missing fields"); handed := None |}
          else
            let r := envelope w b in
            match drafts_create w r with
            | inl id => {| code := 200; reply := reply_draft id; handed := Some r |}
            | inr message =>
                {| code := 500; reply := reply_error message; handed := Some r |}
            end
      end
  end.

(** [app.get("/auth/google/callback", ...)]; [getToken] is the OAuth
    client's exchange of the code: the tokens, or the message of the
    error. The answer is a status and a text. *)
Definition callback (srv : Server) (getToken : option JsString -> JsString + JsString)
    (query_code : option JsString) : Server * (N * JsString) :=
  match getToken query_code with
  | inl newTokens =>
      ({| tokens := Some newTokens;
          conversationAttachments := conversationAttachments srv;
          conversationHistories := conversationHistories srv |},
       (200, check_mark ++ lit " Authenticated! Close this window."))
  | inr message => (srv, (400, cross_mark ++ lit " Error: " ++ message))
  end.

(** The names of the registry [tools], in its order. *)
Definition tools : list JsString :=
  [ lit "send_email"; lit "draft_email"; lit "list_emails"; lit "search_emails";
    lit "delete_email"; lit "create_spreadsheet"; lit "list_calendar_events";
    lit "create_calendar_event"; lit "update_calendar_event";
    lit "delete_calendar_event"; lit "search_calendar_events";
    lit "add_attendees_to_event"; lit "read_sheet"; lit "write_sheet";
    lit "create_document"; lit "read_document"; lit "write_document";
    lit "search_notion"; lit "list_notion_databases"; lit "create_notion_page" ].

Record Health := { health_status : JsString; authenticated : bool; tool_count : nat }.

(** [app.get("/health", ...)] *)
Definition health (srv : Server) : Health :=
  {| health_status := lit "healthy";
     authenticated := match tokens srv with Some _ => true | None => false end;
     tool_count := length tools |}.

End Rest.

(** ** Reading a mail *)

Module Inbox.

(** A message part as Gmail returns it: its type, the data of its body
    when it has some, its sub-parts when it has some. *)
#[local] Set Warnings "-register-all".
Inductive Payload :=
| Part (mimeType : JsString) (data : option JsString) (parts : option (list Payload)).

Definition mimeType (p : Payload) : JsString := match p with Part m _ _ => m end.
Definition data (p : Payload) : option JsString := match p with Part _ d _ => d end.
Definition parts (p : Payload) : option (list Payload) := match p with Part _ _ ps => ps end.

(** [part.mimeType === "text/html" || part.mimeType === "text/plain"] *)
Definition is_text (m : JsString) : bool :=
  bool_decide (m = lit "text/html") || bool_decide (m = lit "text/plain").

(** [x?.data] is truthy. *)
Definition has_data (d : option JsString) : bool :=
  match d with Some s => truthy s | None => false end.

Section Decode.

(** [Buffer.from(data, "base64").toString()] *)
Variable decode : JsString -> JsString.

(** [extractBody] of [readEmailTool]. *)
Fixpoint extractBody (payload : Payload) : JsString :=
  match payload with
  | Part _ d ps =>
      if has_data d then decode (default [] d)
      else
        match ps with
        | Some l =>
            (fix each (l : list Payload) : JsString :=
               match l with
               | [] => []
               | part :: rest =>
                   if is_text (mimeType part) && has_data (data part)
                   then decode (default [] (data part))
                   else
                     match parts part with
                     | Some _ =>
                         let nested := extractBody part in
                         if truthy nested then nested else each rest
                     | None => each rest
                     end
               end) l
        | None => []
        end
  end.

Record Header := { header_name : JsString; header_value : option JsString }.

(** [headers.find((h) => h.name === name)?.value || fallback] *)
Definition headerOr (name : string) (fallback : JsString) (headers : list Header) : JsString :=
  match List.find (fun h => bool_decide (header_name h = lit name)) headers with
  | Some h =>
      match header_value h with
      | Some v => if truthy v then v else fallback
      | None => fallback
      end
  | None => fallback
  end.

(** [resp.data.payload] of a message: its headers, when present, and the
    part tree. *)
Record Message := { headers_of : option (list Header); payload_of : Payload }.

(** The message of the [TypeError] of [payload.body] on an undefined
    payload. *)
Definition no_payload : JsString :=
  lit "Cannot read properties of undefined (reading 'body')".

(** [readEmailTool]; [messages_get] is [gmail.users.messages.get]: the
    payload of the message (possibly absent), or the message of the
    error. *)
Definition readEmailTool (srv : Server)
    (messages_get : JsString -> option Message + JsString) (emailId : JsString) : JsString :=
  match tokens srv with
  | None => cross_mark ++ lit " Error reading email: " ++ not_authenticated
  | Some _ =>
      match messages_get emailId with
      | inr message => cross_mark ++ lit " Error reading email: " ++ message
      | inl None => cross_mark ++ lit " Error reading email: " ++ no_payload
      | inl (Some m) =>
          let headers := default [] (headers_of m) in
          lit "From: " ++ headerOr "From" (lit "Unknown") headers ++ [10]
          ++ lit "Subject: " ++ headerOr "Subject" (lit "No Subject") headers ++ [10]
          ++ lit "Date: " ++ headerOr "Date" [] headers ++ [10; 10]
          ++ lit "Body:" ++ [10] ++ extractBody (payload_of m)
      end
  end.

End Decode.

(** The loop of [extractBody] over the parts, from one part on. *)
Fixpoint firstBody (decode : JsString -> JsString) (l : list Payload) : JsString :=
  match l with
  | [] => []
  | part :: rest =>
      if is_text (mimeType part) && has_data (data part)
      then decode (default [] (data part))
      else
        match parts part with
        | Some _ =>
            let nested := extractBody decode part in
            if truthy nested then nested else firstBody decode rest
        | None => firstBody decode rest
        end
  end.

(** A text part with data. *)
Definition text_with_data (p : Payload) : bool :=
  is_text (mimeType p) && has_data (data p).

(** A part at which the loop of [extractBody] stops when the part has no
    sub-part: a text part with data, or a part that has a [parts] array
    and data, of whatever type, that decodes to a non-empty string. *)
Definition yields (decode : JsString -> JsString) (p : Payload) : bool :=
  text_with_data p
  || match parts p with
     | Some _ => has_data (data p) && truthy (decode (default [] (data p)))
     | None => false
     end.

(** A part of the tree carries the data [d]. *)
Inductive carries (d : JsString) : Payload -> Prop :=
| carries_here m ps : carries d (Part m (Some d) ps)
| carries_below m d' l p : p ∈ l -> carries d p -> carries d (Part m d' (Some l)).

End Inbox.

(** ** Reading a document *)

Module Docs.

(** A structural element of a document: the text runs of its paragraph
    ([el.paragraph?.elements], each run's [textRun?.content]), absent for
    an element that is no paragraph. *)
Definition Element := option (list (option JsString)).

(** [elements.map(e => e.textRun?.content).join('')] *)
Definition paragraphText (runs : list (option JsString)) : JsString :=
  concat (List.map (default []) runs).

(** [content.map(...).filter(Boolean).join('')] *)
Definition documentText (content : list Element) : JsString :=
  concat (filter_Boolean
            (List.map (fun el => match el with
                                 | Some runs => paragraphText runs
                                 | None => []
                                 end) content)).

(** Every text run of the document, in order. *)
Definition allRuns (content : list Element) : JsString :=
  flat_map (fun el => match el with
                      | Some runs => flat_map (default []) runs
                      | None => []
                      end) content.

(** [readDocTool]; [documents_get] is [docs.documents.get]: the content
    of the body, or the message of the error. *)
Definition readDocTool (srv : Server)
    (documents_get : JsString -> list Element + JsString) (documentId : JsString) : JsString :=
  match tokens srv with
  | None => cross_mark ++ lit " Error: " ++ not_authenticated
  | Some _ =>
      match documents_get documentId with
      | inr message => cross_mark ++ lit " Error: " ++ message
      | inl content =>
          check_mark ++ lit " Content: " ++ take 500 (documentText content) ++ lit "..."
      end
  end.

End Docs.

(** ** Calendar events *)

Module Calendar.

Record Attendee := {
  email : JsString;
  attendee_rest : option JsString     (* what else the service keeps of an attendee *)
}.

(** [{ dateTime }], or what the service returned for [start] or [end]. *)
Record Moment := {
  dateTime : option JsString;
  moment_rest : option JsString
}.

(** An event resource; [event_rest] stands for the fields the tools do not
    touch. *)
Record Event := {
  summary : option JsString;
  description : option JsString;
  location : option JsString;
  start : option Moment;
  end_ : option Moment;
  attendees : option (list Attendee);
  event_rest : JsString
}.

(** The calendar service: [events.get] and [events.update], each giving
    the message of the error when it fails. *)
Record Service := {
  events_get : JsString -> Event + JsString;
  events_update : JsString -> Event -> option JsString
}.

(** What a tool returns, and the resource it sent to [events.update], if
    it got that far. *)
Record Outcome := { text : JsString; sent : option Event }.

Definition failed (prefix : string) (message : JsString) : Outcome :=
  {| text := cross_mark ++ lit prefix ++ message; sent := None |}.

(** [attendees.split(",").map((e) => ({ email: e.trim() }))] *)
Definition newAttendees (attendees : JsString) : list Attendee :=
  List.map (fun e => {| email := trim e; attendee_rest := None |}) (split_comma attendees).

(** [addAttendeesToEventTool] *)
Definition addAttendeesToEventTool (srv : Server) (cal : Service)
    (eventId attendees : JsString) : Outcome :=
  match tokens srv with
  | None => failed " Error: " not_authenticated
  | Some _ =>
      match events_get cal eventId with
      | inr message => failed " Error: " message
      | inl existing =>
          let added := newAttendees attendees in
          let resource :=
            {| summary := summary existing; description := description existing;
               location := location existing; start := start existing;
               end_ := end_ existing;
               attendees := Some (default [] (Calendar.attendees existing) ++ added);
               event_rest := event_rest existing |} in
          match events_update cal eventId resource with
          | Some message => {| text := cross_mark ++ lit " Error: " ++ message;
                               sent := Some resource |}
          | None =>
              {| text := check_mark ++ lit " Added "
                         ++ decimal (N.of_nat (length added)) ++ lit " attendees";
                 sent := Some resource |}
          end
      end
  end.

Record Update := {
  up_eventId : JsString;
  up_summary : option JsString;
  up_description : option JsString;
  up_startTime : option JsString;
  up_endTime : option JsString;
  up_location : option JsString
}.

(** [if (x) resource.field = x]: a present, non-empty value replaces the
    field. *)
Definition patched (x old : option JsString) : option JsString :=
  if falsy x then old else x.

Section Dates.

(** [new Date(s).toISOString()]; [None] when the date is invalid and the
    call throws its [RangeError]. *)
Variable toISOString : JsString -> option JsString.

Definition invalid_time : JsString := lit "Invalid time value".

(** [if (t) resource.field = { dateTime: new Date(t).toISOString() }]:
    the new field, or [None] when the conversion throws. *)
Definition moved (t : option JsString) (old : option Moment) : option (option Moment) :=
  if falsy t then Some old
  else match toISOString (default [] t) with
       | Some iso => Some (Some {| dateTime := Some iso; moment_rest := None |})
       | None => None
       end.

(** [updateCalendarEventTool] *)
Definition updateCalendarEventTool (srv : Server) (cal : Service) (u : Update) : Outcome :=
  match tokens srv with
  | None => failed " Error updating event: " not_authenticated
  | Some _ =>
      match events_get cal (up_eventId u) with
      | inr message => failed " Error updating event: " message
      | inl existing =>
          match moved (up_startTime u) (start existing) with
          | None => failed " Error updating event: " invalid_time
          | Some start' =>
              match moved (up_endTime u) (end_ existing) with
              | None => failed " Error updating event: " invalid_time
              | Some end' =>
                  let resource :=
                    {| summary := patched (up_summary u) (summary existing);
                       description := patched (up_description u) (description existing);
                       location := patched (up_location u) (location existing);
                       start := start'; end_ := end';
                       attendees := attendees existing;
                       event_rest := event_rest existing |} in
                  match events_update cal (up_eventId u) resource with
                  | Some message =>
                      {| text := cross_mark ++ lit " Error updating event: " ++ message;
                         sent := Some resource |}
                  | None =>
                      {| text := check_mark ++ lit " Event updated successfully";
                         sent := Some resource |}
                  end
              end
          end
      end
  end.

End Dates.

End Calendar.

(** ** Notion databases *)

Module Notion.

Inductive PropertyType := title | rich_text | number | select | date | checkbox.

Record Property := { prop_name : JsString; prop_type : PropertyType }.

(** [dbProperties[prop.name] = { [prop.type]: {} }] on an object literal:
    the key [__proto__] reaches the prototype setter and adds no property
    of the object's own. *)
Definition assign (dbProperties : gmap JsString PropertyType) (prop : Property)
    : gmap JsString PropertyType :=
  if bool_decide (prop_name prop = lit "__proto__") then dbProperties
  else <[prop_name prop := prop_type prop]> dbProperties.

(** The object [dbProperties] that [createNotionDatabaseTool] builds. *)
Definition dbProperties (properties : option (list Property)) : gmap JsString PropertyType :=
  if match properties with Some l => (0 <? length l)%nat | None => false end
  then fold_left assign (default [] properties) ∅
  else {[ lit "Name" := title ]}.

(** [createNotionDatabaseTool]; [databases_create] is
    [notion.databases.create] on the title and the properties: the id of
    the database, or the message of the error. *)
Definition createNotionDatabaseTool
    (databases_create : JsString -> gmap JsString PropertyType -> JsString + JsString)
    (db_title : JsString) (properties : option (list Property)) : JsString :=
  match databases_create db_title (dbProperties properties) with
  | inl id =>
      check_mark ++ lit " Notion database " ++ dquote ++ db_title ++ dquote
      ++ lit " created successfully (ID: " ++ id ++ lit ")"
  | inr message => cross_mark ++ lit " Error: " ++ message
  end.

End Notion.

Ltac ncases :=
  repeat match goal with
  | |- context [if N.ltb ?a ?b then _ else _] => destruct (N.ltb_spec a b)
  | |- context [if N.leb ?a ?b then _ else _] => destruct (N.leb_spec a b)
  | |- context [if N.eqb ?a ?b then _ else _] => destruct (N.eqb_spec a b)
  | |- context [N.ltb ?a ?b] => destruct (N.ltb_spec a b)
  | |- context [N.leb ?a ?b] => destruct (N.leb_spec a b)
  | |- context [N.eqb ?a ?b] => destruct (N.eqb_spec a b)
  end; cbn [andb orb negb]; try lia.

Ltac ndivmod := zify; Z.to_euclidean_division_equations; lia.

Lemma b64_index_char (i : N) : i < 64 -> b64_index (b64_char i) = Some i.
Proof.
  intros Hi. unfold b64_char. ncases; unfold b64_index; ncases; f_equal; lia.
Qed.

Lemma b64_char_not_pad (i : N) : (b64_char i =? pad) = false.
Proof. unfold b64_char, pad. ncases; reflexivity. Qed.

Lemma b64_char_alphabetic (i : N) : alphabetic (b64_char i).
Proof.
  unfold alphabetic, b64_char. ncases; unfold b64_index; ncases; eauto.
Qed.

Lemma alphabetic_plain (c : N) :
  alphabetic c -> c <> 61 /\ c <> 45 /\ c <> 95.
Proof.
  intros [i Hi]. revert Hi. unfold b64_index. ncases; try discriminate.
Qed.

Lemma list_ind3 {A} (P : list A -> Prop) :
  P [] -> (forall a, P [a]) -> (forall a b, P [a; b]) ->
  (forall a b c r, P r -> P (a :: b :: c :: r)) ->
  forall l, P l.
Proof.
  intros H0 H1 H2 H3.
  fix IH 1. intros [|a [|b [|c r]]];
    [apply H0 | apply H1 | apply H2 | apply H3, IH].
Qed.


(** ** Base64 round trip *)

Lemma decode_quad_encode (a b c : N) :
  byte a -> byte b -> byte c ->
  decode_quad (b64_char (a / 4)) (b64_char ((a mod 4) * 16 + b / 16))
              (b64_char ((b mod 16) * 4 + c / 64)) (b64_char (c mod 64))
  = Some [a; b; c].
Proof.
  unfold byte, decode_quad. intros Ha Hb Hc.
  rewrite !b64_index_char by ndivmod.
  repeat f_equal; ndivmod.
Qed.

Lemma decode_last_one (a : N) :
  byte a ->
  decode_last (b64_char (a / 4)) (b64_char ((a mod 4) * 16)) pad pad = Some [a].
Proof.
  unfold byte, decode_last. intros Ha. rewrite N.eqb_refl.
  rewrite !b64_index_char by ndivmod.
  rewrite N.Div0.mod_mul, N.eqb_refl. repeat f_equal; ndivmod.
Qed.

Lemma decode_last_two (a b : N) :
  byte a -> byte b ->
  decode_last (b64_char (a / 4)) (b64_char ((a mod 4) * 16 + b / 16))
              (b64_char ((b mod 16) * 4)) pad = Some [a; b].
Proof.
  unfold byte, decode_last. intros Ha Hb. rewrite N.eqb_refl, b64_char_not_pad.
  rewrite !b64_index_char by ndivmod.
  rewrite N.Div0.mod_mul, N.eqb_refl.
  repeat f_equal; ndivmod.
Qed.

Lemma decode_last_three (a b c : N) :
  byte a -> byte b -> byte c ->
  decode_last (b64_char (a / 4)) (b64_char ((a mod 4) * 16 + b / 16))
              (b64_char ((b mod 16) * 4 + c / 64)) (b64_char (c mod 64))
  = Some [a; b; c].
Proof.
  intros Ha Hb Hc. unfold decode_last. rewrite b64_char_not_pad.
  by apply decode_quad_encode.
Qed.

Lemma base64_encode_nil (bs : Bytes) : base64_encode bs = [] -> bs = [].
Proof. destruct bs as [|? [|? [|? ?]]]; cbn; congruence. Qed.

Lemma base64_decode_encode (bs : Bytes) :
  Forall byte bs -> base64_decode (base64_encode bs) = Some bs.
Proof.
  induction bs as [|a|a b|a b c r IH] using list_ind3; intros Hb.
  - reflexivity.
  - inversion_clear Hb. by apply decode_last_one.
  - inversion_clear Hb as [|? ? Ha Hb']. inversion_clear Hb'.
    by apply decode_last_two.
  - inversion_clear Hb as [|? ? Ha Hb']. inversion_clear Hb' as [|? ? Hb Hb''].
    inversion_clear Hb'' as [|? ? Hc Hr].
    specialize (IH Hr).
    change (base64_encode (a :: b :: c :: r)) with
      (b64_char (a / 4) :: b64_char ((a mod 4) * 16 + b / 16)
       :: b64_char ((b mod 16) * 4 + c / 64) :: b64_char (c mod 64)
       :: base64_encode r).
    destruct (base64_encode r) as [|x xs] eqn:E.
    + apply base64_encode_nil in E as ->. by apply decode_last_three.
    + change (match decode_quad (b64_char (a / 4)) (b64_char ((a mod 4) * 16 + b / 16))
                (b64_char ((b mod 16) * 4 + c / 64)) (b64_char (c mod 64)),
                base64_decode (x :: xs) with
              | Some b0, Some bs => Some (b0 ++ bs)
              | _, _ => None
              end = Some (a :: b :: c :: r)).
      by rewrite decode_quad_encode, IH.
Qed.

Lemma base64_encode_form (bs : Bytes) : padded_form (base64_encode bs).
Proof.
  induction bs as [|a|a b|a b c r IH] using list_ind3.
  - exists [], 0%nat. repeat split; auto.
  - exists [b64_char (a / 4); b64_char ((a mod 4) * 16)], 2%nat.
    repeat split; auto using b64_char_alphabetic.
  - exists [b64_char (a / 4); b64_char ((a mod 4) * 16 + b / 16);
            b64_char ((b mod 16) * 4)], 1%nat.
    repeat split; auto using b64_char_alphabetic.
  - destruct IH as (core & k & E & Hc & Hl & Hk).
    exists (b64_char (a / 4) :: b64_char ((a mod 4) * 16 + b / 16)
            :: b64_char ((b mod 16) * 4 + c / 64) :: b64_char (c mod 64) :: core), k.
    repeat split; auto using b64_char_alphabetic.
    + cbn [base64_encode]. by rewrite E.
    + cbn [length]. ndivmod.
Qed.

Lemma strip_trailing_eq_pads (k : nat) : strip_trailing_eq (List.repeat pad k) = [].
Proof. induction k as [|k IH]; [done|]. cbn. by rewrite IH. Qed.

Lemma strip_trailing_eq_core (core : JsString) (k : nat) :
  Forall (fun c => c <> pad) core ->
  strip_trailing_eq (core ++ List.repeat pad k) = core.
Proof.
  induction 1 as [|c core Hc _ IH]; cbn.
  - apply strip_trailing_eq_pads.
  - rewrite IH. destruct core; [|done].
    by destruct (N.eqb_spec c 61).
Qed.

Lemma replace_all_pads (c d : N) (k : nat) :
  c <> pad -> replace_all c d (List.repeat pad k) = List.repeat pad k.
Proof.
  intros Hc. induction k as [|k IH]; [done|].
  change (replace_all c d (List.repeat pad (S k)))
    with ((if pad =? c then d else pad) :: replace_all c d (List.repeat pad k)).
  rewrite IH. destruct (N.eqb_spec pad c) as [E|]; [by destruct Hc|done].
Qed.

Lemma replace_all_cons (c d x : N) (s : JsString) :
  replace_all c d (x :: s) = (if x =? c then d else x) :: replace_all c d s.
Proof. reflexivity. Qed.

(** Substituting and substituting back is the identity on the alphabet. *)
Lemma substitute_back (core : JsString) :
  Forall alphabetic core ->
  replace_all 45 43 (replace_all 95 47 (replace_all 47 95 (replace_all 43 45 core))) = core.
Proof.
  induction 1 as [|c core Hc _ IH]; [done|].
  rewrite !replace_all_cons, IH. f_equal.
  apply alphabetic_plain in Hc as (_ & ? & ?).
  destruct (N.eqb_spec c 43) as [->|]; [reflexivity|].
  destruct (N.eqb_spec c 47) as [->|]; [reflexivity|].
  destruct (N.eqb_spec c 95); [done|].
  by destruct (N.eqb_spec c 45).
Qed.

Lemma substituted_not_pad (core : JsString) :
  Forall alphabetic core ->
  Forall (fun c => c <> pad) (replace_all 47 95 (replace_all 43 45 core)).
Proof.
  induction 1 as [|c core Hc _ IH]; rewrite ?replace_all_cons; constructor;
    [|exact IH].
  apply alphabetic_plain in Hc as (? & _ & _). unfold pad.
  destruct (N.eqb_spec c 43) as [->|]; [done|].
  by destruct (N.eqb_spec c 47).
Qed.

Lemma url_unsafe_safe (s : JsString) : padded_form s -> url_unsafe (url_safe s) = s.
Proof.
  intros (core & k & -> & Hc & Hl & Hk).
  unfold url_safe, url_unsafe, replace_all.
  rewrite !List.map_app.
  fold (replace_all 43 45 (List.repeat pad k)).
  rewrite replace_all_pads by done.
  fold (replace_all 47 95 (List.repeat pad k)).
  rewrite replace_all_pads by done.
  fold (replace_all 43 45 core). fold (replace_all 47 95 (replace_all 43 45 core)).
  rewrite strip_trailing_eq_core by by apply substituted_not_pad.
  fold (replace_all 95 47 (replace_all 47 95 (replace_all 43 45 core))).
  fold (replace_all 45 43 (replace_all 95 47 (replace_all 47 95 (replace_all 43 45 core)))).
  rewrite substitute_back by done.
  unfold restore_padding. f_equal. f_equal.
  destruct k as [|[|[|k]]]; [| | |lia]; ndivmod.
Qed.

(** Decoding the URL-safe form gives back the bytes that were encoded. *)
Lemma base64url_decode_encode (bs : Bytes) :
  Forall byte bs -> base64url_decode (url_safe (base64_encode bs)) = Some bs.
Proof.
  intros Hb. unfold base64url_decode.
  rewrite url_unsafe_safe by apply base64_encode_form.
  by apply base64_decode_encode.
Qed.

(** ** UTF-8 produces bytes *)

Lemma utf8_encode_bytes_upto (n : nat) (s : JsString) :
  (length s <= n)%nat -> Forall byte (utf8_encode s).
Proof.
  revert s. induction n as [|n IH]; intros [|c rest] Hl; cbn in Hl; try lia;
    try constructor.
  assert (Hrest : Forall byte (utf8_encode rest)) by (apply IH; lia).
  cbn [utf8_encode].
  destruct (N.ltb_spec c 128); [constructor; [unfold byte; lia | done]|].
  destruct (N.ltb_spec c 2048).
  { repeat constructor; unfold byte; try ndivmod; done. }
  unfold is_high_surrogate, is_low_surrogate, replacement.
  destruct (N.leb_spec 55296 c), (N.leb_spec c 56319); cbn [andb].
  2-4: destruct (N.leb_spec 56320 c), (N.leb_spec c 57343); cbn [andb];
       repeat (constructor; [unfold byte; ndivmod|]); done.
  destruct rest as [|d rest']; [repeat constructor; unfold byte; lia|].
  destruct (N.leb_spec 56320 d), (N.leb_spec d 57343); cbn [andb].
  2-4: repeat (constructor; [unfold byte; lia|]); done.
  repeat (constructor; [unfold byte; ndivmod|]).
  apply IH. cbn in Hl. lia.
Qed.

Lemma utf8_encode_bytes (s : JsString) : Forall byte (utf8_encode s).
Proof. by apply (utf8_encode_bytes_upto (length s)). Qed.

(** ** The envelope builders *)

Lemma createSimpleEmail_decoded w to subject body cc bcc :
  base64url_decode (createSimpleEmail w to subject body cc bcc)
  = Some (utf8_encode (simpleEmailText w to subject body cc bcc)).
Proof. apply base64url_decode_encode, utf8_encode_bytes. Qed.

Lemma createEmailWithAttachments_decoded w to subject body cc bcc atts :
  base64url_decode (createEmailWithAttachments w to subject body cc bcc atts)
  = Some (utf8_encode (finalMessage w to subject body cc bcc atts)).
Proof. apply base64url_decode_encode, utf8_encode_bytes. Qed.

Lemma body_base64_decoded body :
  base64_decode (body_base64 body) = Some (utf8_encode body).
Proof. apply base64_decode_encode, utf8_encode_bytes. Qed.

Lemma join_snoc (sep : JsString) (l : list JsString) (x : JsString) :
  l <> [] -> join sep (l ++ [x]) = join sep l ++ sep ++ x.
Proof.
  induction l as [|a [|b l] IH]; intros Hl; [done|done|].
  specialize (IH ltac:(done)).
  change (join sep ((a :: b :: l) ++ [x])) with (a ++ sep ++ join sep ((b :: l) ++ [x])).
  change (join sep (a :: b :: l)) with (a ++ sep ++ join sep (b :: l)).
  rewrite IH. by rewrite <- !app_assoc.
Qed.

Lemma list_header_truthy label l :
  (0 < length l)%nat -> label <> EmptyString -> truthy (list_header label l) = true.
Proof.
  intros Hl Hlabel. unfold list_header.
  destruct (Nat.ltb_spec 0 (length l)); [|lia].
  by destruct label.
Qed.

(** What [.filter(Boolean)] keeps of [messageParts]: the header lines, and
    the base64 body unless it is empty; never the blank line. *)
Lemma filter_messageParts w to subject body cc bcc :
  filter_Boolean (messageParts w to subject body cc bcc)
  = headerLines w to subject body cc bcc
    ++ (if truthy (body_base64 body) then [body_base64 body] else []).
Proof.
  unfold messageParts, headerLines, filter_Boolean, list_header.
  destruct (0 <? length cc)%nat, (0 <? length bcc)%nat;
    cbn [List.filter truthy lit app];
    destruct (truthy (body_base64 body)); reflexivity.
Qed.

Lemma headerLines_not_nil w to subject body cc bcc :
  headerLines w to subject body cc bcc <> [].
Proof. done. Qed.

Lemma simpleEmailText_layout w to subject body cc bcc :
  simpleEmailText w to subject body cc bcc
  = headerBlock w to subject body cc bcc
    ++ (if truthy (body_base64 body) then CRLF ++ body_base64 body else []).
Proof.
  unfold simpleEmailText, headerBlock. rewrite filter_messageParts.
  destruct (truthy (body_base64 body)).
  - apply join_snoc, headerLines_not_nil.
  - by rewrite !app_nil_r.
Qed.

(** C3. [createSimpleEmail] does not put a blank line between the header
    block and the body: its output, decoded, is the UTF-8 text of the
    header block directly followed by CRLF and the base64 body (by nothing
    at all when the body is empty), which for no input is the layout
    "header block, blank line, base64 body". The empty string of
    [messageParts] that was to be the blank line is removed by
    [.filter(Boolean)]. *)
Theorem createSimpleEmail_drops_blank_line w to subject body cc bcc :
  base64url_decode (createSimpleEmail w to subject body cc bcc)
  = Some (utf8_encode (simpleEmailText w to subject body cc bcc))
  /\ simpleEmailText w to subject body cc bcc
     = headerBlock w to subject body cc bcc
       ++ (if truthy (body_base64 body) then CRLF ++ body_base64 body else [])
  /\ simpleEmailText w to subject body cc bcc
     <> blankLineLayout w to subject body cc bcc.
Proof.
  split; [apply createSimpleEmail_decoded|].
  split; [apply simpleEmailText_layout|].
  rewrite simpleEmailText_layout. unfold blankLineLayout. intros E.
  apply (f_equal length) in E. revert E.
  destruct (truthy (body_base64 body)); rewrite !length_app; cbn [length CRLF]; lia.
Qed.

(** The same at an empty body: the whole message is the header block. *)
Lemma createSimpleEmail_empty_body w to subject cc bcc :
  simpleEmailText w to subject [] cc bcc = headerBlock w to subject [] cc bcc.
Proof. rewrite simpleEmailText_layout. cbn. by rewrite app_nil_r. Qed.

(** C4. Reading back the single-part envelope of
    [to = "a@x.com", subject = "Hi", body = "Hello"]: the decoded message
    is the text below, in which no blank line closes the header block, so
    no body section can be isolated from it. *)
Theorem createSimpleEmail_body_not_isolated :
  let text :=
    lit "From: me@x.com" ++ CRLF ++ lit "To: a@x.com" ++ CRLF
    ++ lit "Subject: Hi" ++ CRLF ++ lit "MIME-Version: 1.0" ++ CRLF
    ++ lit "Content-Type: text/plain; charset=UTF-8; charset=" ++ dquote
    ++ lit "UTF-8" ++ dquote ++ CRLF
    ++ lit "Content-Transfer-Encoding: base64" ++ CRLF ++ lit "SGVsbG8=" in
  base64url_decode
    (createSimpleEmail (Sample.world 0) (lit "a@x.com") (lit "Hi") (lit "Hello") [] [])
  = Some (utf8_encode text)
  /\ split_blank_line text = None.
Proof. split; vm_compute; reflexivity. Qed.

(** The sibling builder does keep the blank line: its message is the
    header block, a blank line, and the parts, the first of which carries
    the base64 of the body. *)
Lemma createEmailWithAttachments_roundtrip w to subject body cc bcc atts :
  base64url_decode (createEmailWithAttachments w to subject body cc bcc atts)
  = Some (utf8_encode
      (headers w to subject cc bcc ++ CRLF ++ CRLF
       ++ (lit "--" ++ boundary w ++ CRLF
           ++ lit "Content-Type: " ++ contentType body ++ lit "; charset=" ++ dquote
           ++ lit "UTF-8" ++ dquote ++ CRLF
           ++ lit "Content-Transfer-Encoding: base64" ++ CRLF ++ CRLF
           ++ body_base64 body ++ CRLF)
       ++ attachmentParts w atts ++ lit "--" ++ boundary w ++ lit "--"))
  /\ base64_decode (body_base64 body) = Some (utf8_encode body).
Proof.
  split; [apply createEmailWithAttachments_decoded | apply body_base64_decoded].
Qed.

Example createEmailWithAttachments_hello :
  split_blank_line
    (finalMessage (Sample.world 7) (lit "a@x.com") (lit "Hi") (lit "Hello") [] [] [Sample.f_txt])
  = Some (lit "From: me@x.com" ++ CRLF ++ lit "To: a@x.com" ++ CRLF
          ++ lit "Subject: Hi" ++ CRLF ++ lit "MIME-Version: 1.0" ++ CRLF
          ++ lit "Content-Type: multipart/mixed; boundary=" ++ dquote
          ++ lit "boundary_7" ++ dquote,
          bodyPart (Sample.world 7) (lit "Hello")
          ++ attachmentParts (Sample.world 7) [Sample.f_txt]
          ++ lit "--boundary_7--").
Proof. vm_compute. reflexivity. Qed.

(** C10. [createSimpleEmail] reads nothing of its surroundings but the
    configured sender: in any two worlds with the same [GMAIL_USER]
    (whatever their clocks and services) equal arguments give equal
    envelopes; [createEmailWithAttachments] does not have this property,
    as its boundary is printed from the clock. *)
Theorem createSimpleEmail_deterministic :
  (forall w1 w2 to subject body cc bcc,
     GMAIL_USER w1 = GMAIL_USER w2 ->
     createSimpleEmail w1 to subject body cc bcc
     = createSimpleEmail w2 to subject body cc bcc)
  /\ (exists w1 w2 to subject body cc bcc atts,
        GMAIL_USER w1 = GMAIL_USER w2
        /\ createEmailWithAttachments w1 to subject body cc bcc atts
           <> createEmailWithAttachments w2 to subject body cc bcc atts).
Proof.
  split.
  - intros w1 w2 to subject body cc bcc E.
    unfold createSimpleEmail, simpleEmailText, messageParts. by rewrite E.
  - exists (Sample.world 1), (Sample.world 2), (lit "a@x.com"), (lit "Hi"),
      (lit "Hello"), [], [], [Sample.f_txt].
    split; [reflexivity|]. vm_compute. discriminate.
Qed.

Lemma createSimpleEmail_deterministic_witness :
  createSimpleEmail (Sample.world 1) (lit "a@x.com") (lit "Hi") (lit "Hello") [] []
  = createSimpleEmail (Sample.world 2) (lit "a@x.com") (lit "Hi") (lit "Hello") [] [].
Proof. apply (proj1 createSimpleEmail_deterministic). reflexivity. Defined.

(** ** Where the blank line is *)

Lemma split_blank_line_skip (l x : JsString) :
  no_CR l ->
  split_blank_line (l ++ x)
  = match split_blank_line x with
    | Some (h, b) => Some (l ++ h, b)
    | None => None
    end.
Proof.
  induction 1 as [|c l Hc _ IH]; cbn [app].
  - by destruct (split_blank_line x) as [[h b]|].
  - cbn [split_blank_line strip_prefix CRLF app].
    destruct (N.eqb_spec c 13); [done|]. rewrite IH.
    by destruct (split_blank_line x) as [[h b]|].
Qed.

Lemma split_blank_line_here (rest : JsString) :
  split_blank_line (CRLF ++ CRLF ++ rest) = Some ([], rest).
Proof. by destruct rest. Qed.

Lemma split_blank_line_break (c : N) (y : JsString) :
  c <> 13 ->
  split_blank_line (CRLF ++ c :: y)
  = match split_blank_line (c :: y) with
    | Some (h, b) => Some (CRLF ++ h, b)
    | None => None
    end.
Proof.
  intros Hc.
  change (CRLF ++ c :: y) with (13 :: 10 :: c :: y).
  cbn [split_blank_line strip_prefix CRLF app].
  rewrite !N.eqb_refl. destruct (N.eqb_spec c 13); [done|].
  change (10 =? 13) with false. cbv iota.
  cbn [split_blank_line strip_prefix CRLF app] in *.
  destruct (N.eqb_spec c 13); [done|].
  by destruct (split_blank_line y) as [[h b]|].
Qed.

Lemma split_blank_line_end : split_blank_line CRLF = None.
Proof. reflexivity. Qed.

Lemma join_head (sep : JsString) (c : N) (l : JsString) (lines : list JsString) :
  exists y, join sep ((c :: l) :: lines) = c :: y.
Proof. destruct lines; cbn [join app]; eauto. Qed.

(** Lines joined by CRLF hold no blank line. *)
Lemma split_blank_line_joined (lines : list JsString) :
  Forall header_line lines -> split_blank_line (join CRLF lines) = None.
Proof.
  induction 1 as [|l lines [Hne Hl] Hrest IH]; [done|].
  destruct lines as [|l' lines].
  - cbn [join]. rewrite <- (app_nil_r l), split_blank_line_skip by done. done.
  - change (join CRLF (l :: l' :: lines)) with (l ++ CRLF ++ join CRLF (l' :: lines)).
    rewrite split_blank_line_skip by done.
    inversion_clear Hrest as [|? ? [Hne' Hl'] _].
    destruct l' as [|c l']; [done|]. inversion_clear Hl' as [|? ? Hc _].
    destruct (join_head CRLF c l' lines) as [y E].
    unfold JsString in *. rewrite E in IH |- *. rewrite split_blank_line_break by done. by rewrite IH.
Qed.

(** The blank line after lines joined by CRLF is the first one. *)
Lemma split_blank_line_after (lines : list JsString) (rest : JsString) :
  Forall header_line lines -> lines <> [] ->
  split_blank_line (join CRLF lines ++ CRLF ++ CRLF ++ rest)
  = Some (join CRLF lines, rest).
Proof.
  induction 1 as [|l lines [Hne Hl] Hrest IH]; [done|]. intros _.
  destruct lines as [|l' lines].
  - cbn [join]. rewrite split_blank_line_skip, split_blank_line_here by done.
    by rewrite app_nil_r.
  - change (join CRLF (l :: l' :: lines)) with (l ++ CRLF ++ join CRLF (l' :: lines)).
    rewrite <- !app_assoc. rewrite split_blank_line_skip by done.
    specialize (IH ltac:(done)).
    inversion_clear Hrest as [|? ? [Hne' Hl'] _].
    destruct l' as [|c l']; [done|]. inversion_clear Hl' as [|? ? Hc _].
    destruct (join_head CRLF c l' lines) as [y E].
    unfold JsString in *. rewrite E in IH |- *. cbn [app] in IH |- *.
    rewrite split_blank_line_break by done. by rewrite IH.
Qed.

Lemma no_CR_app (a b : JsString) : no_CR a -> no_CR b -> no_CR (a ++ b).
Proof. intros. by apply Forall_app. Qed.

Lemma no_CR_lit (s : string) :
  forallb (fun c => negb (c =? 13)) (lit s) = true -> no_CR (lit s).
Proof.
  intros H. apply Forall_forall. intros c Hc%list_elem_of_In.
  rewrite forallb_forall in H. specialize (H c Hc).
  by destruct (N.eqb_spec c 13).
Qed.

Lemma no_CR_join (l : list JsString) :
  Forall no_CR l -> no_CR (join (lit ", ") l).
Proof.
  induction 1 as [|a l Ha Hl IH]; [constructor|].
  destruct l as [|b l]; [done|].
  change (join (lit ", ") (a :: b :: l)) with (a ++ lit ", " ++ join (lit ", ") (b :: l)).
  apply no_CR_app; [done|]. apply no_CR_app; [|done]. by apply no_CR_lit.
Qed.

Lemma alphabetic_not_CR (c : N) : alphabetic c -> c <> 13.
Proof. intros [i Hi]. revert Hi. unfold b64_index. ncases; discriminate. Qed.

Lemma no_CR_base64 (bs : Bytes) : no_CR (base64_encode bs).
Proof.
  destruct (base64_encode_form bs) as (core & k & -> & Hc & _).
  apply no_CR_app.
  - eapply Forall_impl; [exact Hc|]. apply alphabetic_not_CR.
  - clear. induction k; constructor; done.
Qed.

Lemma no_CR_contentType (body : JsString) : no_CR (contentType body).
Proof. unfold contentType. destruct (isHtml body); by apply no_CR_lit. Qed.

Lemma no_CR_decimal_digits fuel n acc : no_CR acc -> no_CR (digits fuel n acc).
Proof.
  revert n acc. induction fuel as [|fuel IH]; intros n acc Hacc; cbn [digits]; [done|].
  assert (no_CR ((48 + n mod 10) :: acc)).
  { constructor; [|done]. pose proof (N.mod_upper_bound n 10). lia. }
  destruct (n / 10 =? 0); [done|by apply IH].
Qed.

Lemma no_CR_boundary (w : World) : no_CR (boundary w).
Proof.
  apply no_CR_app; [by apply no_CR_lit|]. apply no_CR_decimal_digits. constructor.
Qed.

Lemma no_CR_dquote : no_CR dquote.
Proof. by constructor. Qed.

Ltac header_lines :=
  repeat match goal with
  | |- Forall header_line [] => constructor
  | |- Forall header_line (_ :: _) => constructor
  | |- Forall header_line (_ ++ _) => apply Forall_app; split
  | |- header_line _ => split; [cbn [lit app]; discriminate|]
  | |- no_CR (lit _) => by apply no_CR_lit
  | |- no_CR dquote => apply no_CR_dquote
  | |- no_CR (contentType _) => apply no_CR_contentType
  | |- no_CR (boundary _) => apply no_CR_boundary
  | |- no_CR (base64_encode _) => apply no_CR_base64
  | |- no_CR (join (lit ", ") _) => apply no_CR_join
  | |- no_CR (_ ++ _) => apply no_CR_app
  | |- _ => assumption
  end.

Lemma headerLines_are_lines w to subject body cc bcc :
  no_CR (GMAIL_USER w) -> no_CR to -> no_CR subject ->
  Forall no_CR cc -> Forall no_CR bcc ->
  Forall header_line (headerLines w to subject body cc bcc).
Proof.
  intros Hu Ht Hs Hcc Hbcc. unfold headerLines.
  destruct (0 <? length cc)%nat, (0 <? length bcc)%nat; header_lines.
Qed.

(** For header values without carriage return, the message of
    [createSimpleEmail] holds no blank line at all. *)
Lemma simpleEmailText_no_blank_line w to subject body cc bcc :
  no_CR (GMAIL_USER w) -> no_CR to -> no_CR subject ->
  Forall no_CR cc -> Forall no_CR bcc ->
  split_blank_line (simpleEmailText w to subject body cc bcc) = None.
Proof.
  intros Hu Ht Hs Hcc Hbcc. unfold simpleEmailText. rewrite filter_messageParts.
  apply split_blank_line_joined, Forall_app. split.
  - by apply headerLines_are_lines.
  - destruct (body_base64 body) as [|c r] eqn:E; cbn [truthy]; [constructor|].
    constructor; [|constructor]. split; [done|]. rewrite <- E. apply no_CR_base64.
Qed.

Lemma headers_lines w to subject cc bcc :
  headers w to subject cc bcc
  = join CRLF
      ([ lit "From: " ++ GMAIL_USER w; lit "To: " ++ to ]
       ++ (if (0 <? length cc)%nat then [lit "Cc: " ++ join (lit ", ") cc] else [])
       ++ (if (0 <? length bcc)%nat then [lit "Bcc: " ++ join (lit ", ") bcc] else [])
       ++ [ lit "Subject: " ++ subject;
            lit "MIME-Version: 1.0";
            lit "Content-Type: multipart/mixed; boundary=" ++ dquote
              ++ boundary w ++ dquote ]).
Proof.
  unfold headers, filter_Boolean, list_header.
  by destruct (0 <? length cc)%nat, (0 <? length bcc)%nat.
Qed.

(** For the same header values, the message of [createEmailWithAttachments]
    has its blank line right after the header block, and the part that
    follows carries the base64 of the body, which decodes to the body's
    UTF-8 bytes. *)
Lemma finalMessage_blank_line w to subject body cc bcc atts :
  no_CR (GMAIL_USER w) -> no_CR to -> no_CR subject ->
  Forall no_CR cc -> Forall no_CR bcc ->
  split_blank_line (finalMessage w to subject body cc bcc atts)
  = Some (headers w to subject cc bcc,
          bodyPart w body ++ attachmentParts w atts ++ lit "--" ++ boundary w ++ lit "--")
  /\ split_blank_line (bodyPart w body)
     = Some (lit "--" ++ boundary w ++ CRLF
             ++ lit "Content-Type: " ++ contentType body ++ lit "; charset=" ++ dquote
             ++ lit "UTF-8" ++ dquote ++ CRLF ++ lit "Content-Transfer-Encoding: base64",
             body_base64 body ++ CRLF)
  /\ base64_decode (body_base64 body) = Some (utf8_encode body).
Proof.
  intros Hu Ht Hs Hcc Hbcc. split; [|split; [|apply body_base64_decoded]].
  - unfold finalMessage. rewrite headers_lines. apply split_blank_line_after; [|done].
    destruct (0 <? length cc)%nat, (0 <? length bcc)%nat; header_lines.
  - unfold bodyPart.
    pose proof (split_blank_line_after
      [ lit "--" ++ boundary w;
        lit "Content-Type: " ++ contentType body ++ lit "; charset=" ++ dquote
          ++ lit "UTF-8" ++ dquote;
        lit "Content-Transfer-Encoding: base64" ] (body_base64 body ++ CRLF)) as H.
    cbn [join] in H. rewrite <- !app_assoc in *. apply H; [|done].
    header_lines.
Qed.

(** ** Attachment payloads *)

Lemma strip_prefix_app (p r : JsString) : strip_prefix p (p ++ r) = Some r.
Proof.
  induction p as [|c p IH]; [by destruct r|].
  cbn [app strip_prefix]. by rewrite N.eqb_refl.
Qed.

Lemma strip_prefix_Some (p s r : JsString) :
  strip_prefix p s = Some r -> s = p ++ r.
Proof.
  revert s. induction p as [|c p IH]; intros s.
  - destruct s; cbn; congruence.
  - destruct s as [|x s]; cbn [strip_prefix]; [done|].
    destruct (N.eqb_spec x c) as [->|]; [|done].
    intros E. cbn [app]. f_equal. by apply IH.
Qed.

Lemma span_not_spec (c : N) (s a b : JsString) :
  span_not c s = (a, b) ->
  s = a ++ b /\ Forall (fun x => x <> c) a /\ (b = [] \/ exists b', b = c :: b').
Proof.
  revert a b. induction s as [|x s IH]; intros a b; cbn [span_not].
  - intros [= <- <-]. auto.
  - destruct (N.eqb_spec x c) as [->|Hx].
    + intros [= <- <-]. eauto.
    + destruct (span_not c s) as [a' b'] eqn:E. intros [= <- <-].
      destruct (IH _ _ eq_refl) as (-> & Ha & Hb). auto.
Qed.

Lemma span_not_app (c : N) (a b : JsString) :
  Forall (fun x => x <> c) a -> span_not c (a ++ c :: b) = (a, c :: b).
Proof.
  induction 1 as [|x a Hx _ IH]; cbn [app span_not].
  - by rewrite N.eqb_refl.
  - destruct (N.eqb_spec x c); [done|]. by rewrite IH.
Qed.

Lemma stripDataUri_prefixed (p rest : JsString) :
  dataUriPrefix p -> stripDataUri (p ++ rest) = rest.
Proof.
  intros (ty & -> & Hne & Hty). unfold stripDataUri.
  rewrite <- !app_assoc, strip_prefix_app.
  change (lit ";base64," ++ rest) with (59 :: lit "base64," ++ rest).
  rewrite span_not_app by done.
  destruct ty; [done|]. cbn [truthy].
  change (59 :: lit "base64," ++ rest) with (lit ";base64," ++ rest).
  by rewrite strip_prefix_app.
Qed.

Lemma stripDataUri_cases (data : JsString) :
  (exists p, dataUriPrefix p /\ data = p ++ stripDataUri data)
  \/ stripDataUri data = data.
Proof.
  unfold stripDataUri.
  destruct (strip_prefix (lit "data:") data) as [r|] eqn:E1; [|by right].
  destruct (span_not 59 r) as [ty r'] eqn:E2.
  destruct (truthy ty) eqn:E3; [|by right].
  destruct (strip_prefix (lit ";base64,") r') as [payload|] eqn:E4; [|by right].
  left.
  apply strip_prefix_Some in E1 as ->. apply strip_prefix_Some in E4 as ->.
  apply span_not_spec in E2 as (-> & Hty & _).
  exists (lit "data:" ++ ty ++ lit ";base64,"). split.
  - exists ty. repeat split; [|done]. by destruct ty.
  - by rewrite <- !app_assoc.
Qed.

(** [stripDataUri] removes a leading data-URI prefix when there is one and
    changes nothing otherwise. *)
Lemma stripDataUri_spec (data : JsString) :
  (exists p, dataUriPrefix p /\ data = p ++ stripDataUri data)
  \/ (stripDataUri data = data
      /\ ~ exists p r, dataUriPrefix p /\ data = p ++ r).
Proof.
  destruct (stripDataUri_cases data) as [H|H]; [by left|].
  right. split; [done|]. intros (p & r & Hp & E).
  rewrite E, stripDataUri_prefixed in H by done.
  apply (f_equal length) in H. rewrite length_app in H.
  destruct Hp as (ty & -> & _). cbn in H. lia.
Qed.

(** *** Wrapping *)

Lemma unwrapped_plain (s : JsString) : plain s -> unwrapped s = s.
Proof.
  induction 1 as [|c s Hc _ IH]; [done|].
  unfold unwrapped, not_line_terminator in *. cbn [List.filter].
  by rewrite Hc, IH.
Qed.

Lemma unwrapped_app (a b : JsString) : unwrapped (a ++ b) = unwrapped a ++ unwrapped b.
Proof. apply List.filter_app. Qed.

Lemma match_chunks_spec (str acc : JsString) :
  plain acc -> (length acc <= 76)%nat ->
  Forall chunk (match_chunks str acc)
  /\ concat (match_chunks str acc) = acc ++ unwrapped str.
Proof.
  revert acc. induction str as [|c rest IH]; intros acc Hacc Hlen; cbn [match_chunks].
  - destruct acc as [|a acc]; cbn [truthy concat unwrapped List.filter].
    + by split.
    + rewrite !app_nil_r. split; [|done]. constructor; [|constructor].
      split; [done|]. cbn in *. lia.
  - unfold unwrapped, not_line_terminator. cbn [List.filter].
    destruct (is_line_terminator c) eqn:Hc; cbn [negb].
    + destruct (IH [] ltac:(constructor) ltac:(cbn; lia)) as [IH1 IH2].
      destruct acc as [|a acc]; cbn [truthy app concat].
      * done.
      * split; [constructor; [|done]|].
        -- split; [done|]. cbn in *. lia.
        -- rewrite IH2. cbn [app]. done.
    + destruct (Nat.ltb_spec (length acc) 76).
      * destruct (IH (acc ++ [c])) as [IH1 IH2].
        { apply Forall_app. split; [done|]. by constructor. }
        { rewrite length_app. cbn. lia. }
        split; [done|]. rewrite IH2. by rewrite <- app_assoc.
      * destruct (IH [c]) as [IH1 IH2]; [by constructor|cbn; lia|].
        split; [constructor; [|done]|].
        -- split; [done|lia].
        -- cbn [concat]. by rewrite IH2.
Qed.

Lemma split_lines_cons (s : JsString) : exists l ls, split_lines s = l :: ls.
Proof.
  induction s as [|c s (l & ls & IH)]; cbn [split_lines]; [eauto|].
  rewrite IH. destruct (is_line_terminator c); eauto.
Qed.

Lemma split_lines_plain_app (a b : JsString) :
  plain a ->
  split_lines (a ++ b)
  = match split_lines b with l :: ls => (a ++ l) :: ls | [] => [a] end.
Proof.
  destruct (split_lines_cons b) as (l & ls & E). rewrite E.
  induction 1 as [|c a Hc _ IH]; cbn [app split_lines].
  - done.
  - by rewrite Hc, IH.
Qed.

Lemma split_lines_plain (a : JsString) : plain a -> split_lines a = [a].
Proof.
  intros Ha. rewrite <- (app_nil_r a) at 1.
  rewrite split_lines_plain_app by done. cbn. by rewrite app_nil_r.
Qed.

Lemma split_lines_joined (chunks : list JsString) :
  Forall chunk chunks ->
  Forall (fun l => (length l <= 76)%nat) (split_lines (join CRLF chunks)).
Proof.
  induction 1 as [|p chunks [Hp Hl] Hrest IH].
  - constructor; [cbn; lia|constructor].
  - destruct chunks as [|q chunks].
    + cbn [join]. rewrite split_lines_plain by done.
      constructor; [lia|constructor].
    + change (join CRLF (p :: q :: chunks))
        with (p ++ 13 :: 10 :: join CRLF (q :: chunks)).
      rewrite split_lines_plain_app by done.
      change (split_lines (13 :: 10 :: join CRLF (q :: chunks)))
        with ([] :: [] :: split_lines (join CRLF (q :: chunks))).
      cbv beta iota. rewrite app_nil_r.
      constructor; [lia|]. constructor; [cbn; lia|]. exact IH.
Qed.

Lemma split_lines_breaks_only (s : JsString) :
  unwrapped s = [] ->
  Forall (fun l => (length l <= 76)%nat) (split_lines s).
Proof.
  induction s as [|c s IH]; cbn [split_lines].
  - intros _. constructor; [cbn; lia|constructor].
  - unfold unwrapped, not_line_terminator. cbn [List.filter].
    destruct (is_line_terminator c); cbn [negb]; [|done].
    intros E. constructor; [cbn; lia|]. by apply IH.
Qed.

Lemma unwrapped_joined (chunks : list JsString) :
  Forall chunk chunks -> unwrapped (join CRLF chunks) = concat chunks.
Proof.
  induction 1 as [|p chunks [Hp Hl] Hrest IH]; [done|].
  destruct chunks as [|q chunks].
  - cbn [join concat]. rewrite app_nil_r. by apply unwrapped_plain.
  - change (join CRLF (p :: q :: chunks))
      with (p ++ CRLF ++ join CRLF (q :: chunks)).
    rewrite !unwrapped_app, IH, unwrapped_plain by done. done.
Qed.

(** Every line of a wrapped text has at most 76 characters. *)
Lemma wrapBase64_lines (str : JsString) :
  Forall (fun l => (length l <= 76)%nat) (split_lines (wrapBase64 str)).
Proof.
  unfold wrapBase64.
  destruct (match_chunks_spec str []) as [Hc Hcat]; [constructor|cbn; lia|].
  destruct (match_chunks str []) as [|p chunks] eqn:E.
  - apply split_lines_breaks_only. symmetry. exact Hcat.
  - by apply split_lines_joined.
Qed.

(** Wrapping adds and removes line breaks only. *)
Lemma wrapBase64_unwrapped (str : JsString) :
  unwrapped (wrapBase64 str) = unwrapped str.
Proof.
  unfold wrapBase64.
  destruct (match_chunks_spec str []) as [Hc Hcat]; [constructor|cbn; lia|].
  destruct (match_chunks str []) as [|p chunks] eqn:E; [done|].
  by rewrite unwrapped_joined.
Qed.

Lemma chunks_of_nil (fuel n : nat) : chunks_of fuel n [] = [].
Proof. by destruct fuel. Qed.

Lemma match_chunks_plain (str acc : JsString) (fuel : nat) :
  plain str -> (length acc <= 76)%nat -> (length (acc ++ str) <= fuel)%nat ->
  match_chunks str acc = chunks_of fuel 76 (acc ++ str).
Proof.
  intros Hs. revert acc fuel.
  induction Hs as [|c rest Hc _ IH]; intros acc fuel Hacc Hfuel; cbn [match_chunks].
  - rewrite app_nil_r in *. destruct acc as [|a acc]; cbn [truthy].
    + by rewrite chunks_of_nil.
    + destruct fuel as [|fuel]; [cbn in Hfuel; lia|]. cbn [chunks_of].
      rewrite take_ge, drop_ge by done. by rewrite chunks_of_nil.
  - rewrite Hc. destruct (Nat.ltb_spec (length acc) 76).
    + rewrite (IH (acc ++ [c]) fuel).
      * by rewrite <- app_assoc.
      * rewrite length_app. cbn. lia.
      * by rewrite <- app_assoc.
    + rewrite length_app in Hfuel. cbn [length] in Hfuel.
      destruct fuel as [|fuel]; [lia|]. cbn [chunks_of].
      rewrite take_app_length', drop_app_length' by lia.
      rewrite (IH [c] fuel); [|cbn; lia|cbn; lia].
      by destruct acc.
Qed.

(** On a text without line breaks, [wrapBase64] is the wrapping at 76. *)
Lemma wrapBase64_plain (str : JsString) : plain str -> wrapBase64 str = lineWrap76 str.
Proof.
  intros Hs. unfold wrapBase64, lineWrap76.
  rewrite (match_chunks_plain str [] (length str)) by (done || (cbn; lia)).
  cbn [app]. destruct str as [|c str]; [done|].
  reflexivity.
Qed.

Lemma attachmentParts_contains (w : World) (atts : list Attachment) (att : Attachment) :
  att ∈ atts ->
  exists before after,
    attachmentParts w atts
    = before ++ attachmentHead w att ++ attachmentPayload att ++ CRLF ++ CRLF ++ after.
Proof.
  induction 1 as [att atts|att x atts _ (before & after & IH)].
  - exists [], (attachmentParts w atts). cbn [attachmentParts app].
    by rewrite <- !app_assoc.
  - exists ((attachmentHead w x ++ attachmentPayload x ++ CRLF ++ CRLF) ++ before), after.
    cbn [attachmentParts]. rewrite IH. by rewrite <- !app_assoc.
Qed.

Lemma attachmentParts_app (w : World) (a b : list Attachment) :
  attachmentParts w (a ++ b) = attachmentParts w a ++ attachmentParts w b.
Proof.
  induction a as [|x a IH]; [done|].
  cbn [app attachmentParts]. rewrite IH. by rewrite <- !app_assoc.
Qed.

(** The message [createEmailWithAttachments] encodes, around one of its
    attachments: the header block, the blank line, the body part, the
    parts of the attachments before it, then its own part, the boundary
    line, its Content-Type, Content-Disposition and
    Content-Transfer-Encoding lines, a blank line, its payload and two
    CRLF, then the parts of the attachments after it and the closing
    boundary. *)
Lemma finalMessage_around w to subject body cc bcc earlier att later :
  finalMessage w to subject body cc bcc (earlier ++ att :: later)
  = headers w to subject cc bcc ++ CRLF ++ CRLF ++ bodyPart w body
    ++ attachmentParts w earlier
    ++ (lit "--" ++ boundary w ++ CRLF
        ++ lit "Content-Type: " ++ att_type att ++ lit "; name=" ++ dquote
        ++ att_name att ++ dquote ++ CRLF
        ++ lit "Content-Disposition: attachment; filename=" ++ dquote
        ++ att_name att ++ dquote ++ CRLF
        ++ lit "Content-Transfer-Encoding: base64" ++ CRLF ++ CRLF
        ++ wrapBase64 (stripDataUri (att_data att)) ++ CRLF ++ CRLF)
    ++ attachmentParts w later ++ lit "--" ++ boundary w ++ lit "--".
Proof.
  unfold finalMessage. rewrite attachmentParts_app.
  cbn [attachmentParts]. unfold attachmentHead, attachmentPayload.
  by rewrite <- !app_assoc.
Qed.

(** C5. For every attachment handed to [createEmailWithAttachments],
    wherever it stands in the list: the envelope decodes to the UTF-8 of a
    message in which, after the header block, the body part and the parts
    of the attachments before it, stands this attachment's part, whose
    base64 payload, after the line [Content-Transfer-Encoding: base64] and
    a blank line, is the attachment's data without its leading data-URI
    prefix ([data:<type>;base64,]), if it has one, wrapped: every line of
    the payload has at most 76 characters, the payload differs from the
    stripped data by line breaks only, and where the stripped data has no
    line break of its own the payload is exactly its lines of 76 characters
    joined by CRLF. *)
Theorem attachment_payload_stripped_and_wrapped
    (w : World) (to subject body : JsString) (cc bcc : list JsString)
    (earlier later : list Attachment) (att : Attachment) :
  exists payload rest,
    base64url_decode
      (createEmailWithAttachments w to subject body cc bcc (earlier ++ att :: later))
    = Some (utf8_encode
        (headers w to subject cc bcc ++ CRLF ++ CRLF ++ bodyPart w body
         ++ attachmentParts w earlier
         ++ (lit "--" ++ boundary w ++ CRLF
             ++ lit "Content-Type: " ++ att_type att ++ lit "; name=" ++ dquote
             ++ att_name att ++ dquote ++ CRLF
             ++ lit "Content-Disposition: attachment; filename=" ++ dquote
             ++ att_name att ++ dquote ++ CRLF
             ++ lit "Content-Transfer-Encoding: base64" ++ CRLF ++ CRLF
             ++ payload ++ CRLF ++ CRLF)
         ++ attachmentParts w later ++ lit "--" ++ boundary w ++ lit "--"))
    /\ ((exists p, dataUriPrefix p /\ att_data att = p ++ rest)
        \/ (rest = att_data att
            /\ ~ exists p r, dataUriPrefix p /\ att_data att = p ++ r))
    /\ payload = wrapBase64 rest
    /\ Forall (fun l => (length l <= 76)%nat) (split_lines payload)
    /\ unwrapped payload = unwrapped rest
    /\ (plain rest -> payload = lineWrap76 rest).
Proof.
  exists (wrapBase64 (stripDataUri (att_data att))), (stripDataUri (att_data att)).
  split.
  { rewrite <- finalMessage_around. apply base64url_decode_encode, utf8_encode_bytes. }
  split; [|split; [done|split; [apply wrapBase64_lines|split;
    [apply wrapBase64_unwrapped|apply wrapBase64_plain]]]].
  destruct (stripDataUri_spec (att_data att)) as [H|[H1 H2]]; [by left|by right].
Qed.

(** The part of [f.txt], sent after another file: its payload is [QUJD],
    the data without its prefix. *)
Lemma attachment_payload_stripped_and_wrapped_witness :
  base64url_decode
    (createEmailWithAttachments (Sample.world 7) (lit "a@x.com") (lit "Hi") (lit "Hello")
       [] [] [Sample.g_txt; Sample.f_txt])
  = Some (utf8_encode
      (headers (Sample.world 7) (lit "a@x.com") (lit "Hi") [] [] ++ CRLF ++ CRLF
       ++ bodyPart (Sample.world 7) (lit "Hello")
       ++ attachmentParts (Sample.world 7) [Sample.g_txt]
       ++ (lit "--boundary_7" ++ CRLF
           ++ lit "Content-Type: text/plain; name=" ++ dquote ++ lit "f.txt" ++ dquote ++ CRLF
           ++ lit "Content-Disposition: attachment; filename=" ++ dquote ++ lit "f.txt"
           ++ dquote ++ CRLF
           ++ lit "Content-Transfer-Encoding: base64" ++ CRLF ++ CRLF
           ++ lit "QUJD" ++ CRLF ++ CRLF)
       ++ lit "--boundary_7--")).
Proof.
  destruct (attachment_payload_stripped_and_wrapped (Sample.world 7) (lit "a@x.com")
              (lit "Hi") (lit "Hello") [] [] [Sample.g_txt] [] Sample.f_txt)
    as (payload & rest & Hdec & Hrest & Hpay & _ & _ & Hplain).
  assert (Hr : rest = lit "QUJD").
  { destruct Hrest as [(p & (ty & -> & _ & Hty) & E)|[-> H]].
    - revert E Hty. cbn. intros [= E] Hty.
      do 10 (destruct ty as [|? ty]; [discriminate E|];
             injection E as <- E; inversion_clear Hty as [|? ? ? Hty']; rename Hty' into Hty).
      destruct ty as [|? ty]; [by injection E as <-|].
      injection E as <- E. by inversion_clear Hty.
    - exfalso. apply H. exists (lit "data:text/plain;base64,"), (lit "QUJD").
      split; [|reflexivity]. exists (lit "text/plain").
      split; [reflexivity|]. split; [done|]. repeat constructor; done. }
  subst rest. rewrite Hplain in Hdec by repeat constructor.
  exact Hdec.
Defined.

(** ** The mail tools and the staged attachments *)

Lemma scanStaged_first (before after : list (JsString * list Attachment))
    (sessionId : JsString) (set final : list Attachment) :
  Forall nothing_staged before -> set <> [] ->
  scanStaged (before ++ (sessionId, set) :: after) final = set.
Proof.
  intros Hb Hset. induction Hb as [|[k v] before Hk _ IH]; cbn [app scanStaged].
  - by destruct set.
  - unfold nothing_staged in Hk. cbn in Hk. subst v. exact IH.
Qed.

Lemma scanStaged_none (entries : list (JsString * list Attachment))
    (final : list Attachment) :
  Forall nothing_staged entries -> scanStaged entries final = final.
Proof.
  induction 1 as [|[k v] entries Hk _ IH]; [done|].
  unfold nothing_staged in Hk. cbn in Hk. subst v. exact IH.
Qed.

(** C1. An authorized invocation of [send_email] or [draft_email] scans
    the whole staging map before it looks at the attachments of its
    arguments. When some session has a non-empty set staged, the first such
    set in the map's order, whichever session it belongs to (the handler is
    not told which session invokes it), is the one the envelope is built
    from: the [raw] handed to Gmail is [createEmailWithAttachments] of that
    set, it decodes to a message that carries one part for each of its
    attachments, and the reply counts its attachments; the attachments of
    the arguments are not used. They are used only when no session has
    anything staged, and then a mail without any is built by
    [createSimpleEmail]. *)
Theorem mail_tools_use_first_staged_set
    (srv : Server) (w : World) (a : MailArgs) (tok : JsString) :
  tokens srv = Some tok ->
  let ccList := recipientList (cc a) in
  let bccList := recipientList (bcc a) in
  (forall before sessionId set after,
     conversationAttachments srv = before ++ (sessionId, set) :: after ->
     Forall nothing_staged before -> set <> [] ->
     let envelope :=
       createEmailWithAttachments w (to a) (subject a) (body a) ccList bccList set in
     let text :=
       headers w (to a) (subject a) ccList bccList ++ CRLF ++ CRLF
       ++ bodyPart w (body a) ++ attachmentParts w set
       ++ lit "--" ++ boundary w ++ lit "--" in
     raw (sendEmailTool srv w a) = Some envelope
     /\ raw (draftEmailTool srv w a) = Some envelope
     /\ finalAttachments (sendEmailTool srv w a) = Some set
     /\ finalAttachments (draftEmailTool srv w a) = Some set
     /\ base64url_decode envelope = Some (utf8_encode text)
     /\ (forall att, att ∈ set ->
           exists pre post,
             text = pre ++ attachmentHead w att
                    ++ wrapBase64 (stripDataUri (att_data att)) ++ CRLF ++ CRLF ++ post)
     /\ (messages_send w envelope = None ->
         observation (sendEmailTool srv w a)
         = check_mark ++ lit " Email sent successfully to " ++ to a ++ lit " with "
           ++ decimal (N.of_nat (length set)) ++ lit " attachment(s)"))
  /\ (Forall nothing_staged (conversationAttachments srv) ->
      let explicit := default [] (attachments a) in
      let envelope :=
        if (0 <? length explicit)%nat
        then createEmailWithAttachments w (to a) (subject a) (body a) ccList bccList explicit
        else createSimpleEmail w (to a) (subject a) (body a) ccList bccList in
      raw (sendEmailTool srv w a) = Some envelope
      /\ raw (draftEmailTool srv w a) = Some envelope).
Proof.
  intros Htok ccList bccList. split.
  - intros before sessionId set after E Hb Hset envelope text.
    assert (Hsel : selectAttachments srv a = set).
    { unfold selectAttachments. rewrite E. by apply scanStaged_first. }
    assert (Hlen : (0 <? length set)%nat = true) by by destruct set.
    assert (Hraw : buildRaw w a set = envelope).
    { unfold buildRaw. by rewrite Hlen. }
    unfold sendEmailTool, draftEmailTool. rewrite Htok, Hsel, Hraw.
    cbn [raw finalAttachments observation].
    split; [done|]. split; [done|]. split; [done|]. split; [done|].
    split; [apply createEmailWithAttachments_decoded|]. split.
    + intros att Hin. subst text.
      destruct (attachmentParts_contains w set att Hin) as (pre & post & ->).
      exists (headers w (to a) (subject a) ccList bccList ++ CRLF ++ CRLF
              ++ bodyPart w (body a) ++ pre),
             (post ++ lit "--" ++ boundary w ++ lit "--").
      unfold attachmentPayload. by rewrite <- !app_assoc.
    + intros ->. unfold with_attachments. by rewrite Hlen.
  - intros Hn explicit envelope.
    assert (Hsel : selectAttachments srv a = explicit).
    { unfold selectAttachments. by apply scanStaged_none. }
    unfold sendEmailTool, draftEmailTool. rewrite Htok, Hsel.
    cbn [raw]. by unfold buildRaw.
Qed.

(** Two sessions have staged a file each; a call that passes two other
    files in its arguments sends the first session's file, and only it. *)
Lemma mail_tools_use_first_staged_set_witness :
  let srv := {| tokens := Some (lit "ya29.token");
                conversationAttachments :=
                  [(lit "session_1", [Sample.f_txt]); (lit "session_2", [Sample.g_txt])];
                conversationHistories := ∅ |} in
  let a := {| to := lit "a@x.com"; subject := lit "Hi"; body := lit "Hello";
              cc := None; bcc := None;
              attachments := Some [Sample.g_txt; Sample.g_txt] |} in
  raw (sendEmailTool srv (Sample.world 7) a)
  = Some (createEmailWithAttachments (Sample.world 7) (lit "a@x.com") (lit "Hi")
            (lit "Hello") [] [] [Sample.f_txt])
  /\ observation (sendEmailTool srv (Sample.world 7) a)
     = check_mark ++ lit " Email sent successfully to a@x.com with 1 attachment(s)".
Proof.
  intros srv a.
  destruct (mail_tools_use_first_staged_set srv (Sample.world 7) a (lit "ya29.token"))
    as [Hfirst _]; [reflexivity|].
  destruct (Hfirst [] (lit "session_1") [Sample.f_txt]
              [(lit "session_2", [Sample.g_txt])])
    as (Hraw & _ & _ & _ & _ & _ & Hobs).
  - reflexivity.
  - constructor.
  - discriminate.
  - split; [exact Hraw|]. apply Hobs. reflexivity.
Defined.

(** ** The executor's loop *)

Lemma loop_bounds srv env backend inp left done np nr :
  let r := loop srv env backend inp left done np nr in
  (plans r <= np + left)%nat /\ (rounds r <= nr + left)%nat.
Proof.
  revert done np nr. induction left as [|left IH]; intros done np nr; cbn [loop].
  - cbn. lia.
  - destruct (backend inp done) as [output|calls|message]; cbn [plans rounds]; [lia| |lia].
    specialize (IH (done ++ dispatch srv env (length done) calls) (S np) (S nr)).
    cbn zeta in IH. lia.
Qed.

Lemma loop_never_done srv env backend inp left done np nr :
  (forall done', exists calls, backend inp done' = AgentActions calls) ->
  let r := loop srv env backend inp left done np nr in
  plans r = (np + left)%nat /\ rounds r = (nr + left)%nat
  /\ stopped r = true /\ completion r = Returned stopped_message.
Proof.
  intros Hb. revert done np nr.
  induction left as [|left IH]; intros done np nr; cbn [loop].
  - cbn. repeat split; lia.
  - destruct (Hb done) as [calls ->].
    specialize (IH (done ++ dispatch srv env (length done) calls) (S np) (S nr)).
    cbn zeta in IH. destruct IH as (-> & -> & -> & ->). repeat split; lia.
Qed.

(** C6. A run of the executor [createAgentExecutor] builds consults the
    reasoning backend at most 8 times and dispatches tools at most 8 times,
    whatever the backend answers; against a backend that asks for a tool
    every time it makes exactly 8 round trips, then stops and returns the
    fixed message "Agent stopped due to max iterations." *)
Theorem executor_stops_at_iteration_cap
    (srv : Server) (env : Environment) (backend : Backend) (inp : AgentInput) :
  let r := invoke createAgentExecutor srv env backend inp in
  ((plans r <= 8)%nat /\ (rounds r <= 8)%nat)
  /\ ((forall done, exists calls, backend inp done = AgentActions calls) ->
      rounds r = 8%nat /\ plans r = 8%nat /\ stopped r = true
      /\ completion r = Returned stopped_message).
Proof.
  unfold invoke. cbn [maxIterations createAgentExecutor]. split.
  - apply (loop_bounds srv env backend inp 8 [] 0 0).
  - intros Hb.
    destruct (loop_never_done srv env backend inp 8 [] 0 0 Hb) as (-> & -> & -> & ->).
    done.
Qed.

Lemma executor_stops_at_iteration_cap_witness :
  let r := invoke createAgentExecutor Sample.fresh Sample.env Sample.never_done
             {| input := lit "list my mail"; chat_history := [] |} in
  rounds r = 8%nat /\ length (steps r) = 8%nat
  /\ completion r = Returned (lit "Agent stopped due to max iterations.").
Proof.
  intros r.
  destruct (executor_stops_at_iteration_cap Sample.fresh Sample.env Sample.never_done
              {| input := lit "list my mail"; chat_history := [] |}) as [_ H].
  destruct H as (H1 & _ & _ & H2).
  - intros done. eexists. reflexivity.
  - split; [exact H1|]. split; [vm_compute; reflexivity|exact H2].
Defined.

(** ** Staging across a turn *)

Lemma JsMap_get_delete {V} (k : JsString) (m : list (JsString * V)) :
  JsMap.get k (JsMap.delete k m) = None.
Proof.
  induction m as [|[k' v] m IH]; [done|].
  cbn [JsMap.delete]. destruct (decide (k' = k)) as [->|Hk]; [done|].
  cbn [JsMap.get]. by destruct (decide (k' = k)).
Qed.

Lemma JsMap_has_false {V} (k : JsString) (m : list (JsString * V)) :
  JsMap.has k m = false -> JsMap.get k m = None.
Proof. unfold JsMap.has. by destruct (JsMap.get k m). Qed.

Lemma scanStaged_set (m : list (JsString * list Attachment)) (k : JsString)
    (set final : list Attachment) :
  Forall nothing_staged m -> set <> [] ->
  scanStaged (JsMap.set k set m) final = set.
Proof.
  intros Hm Hset. induction Hm as [|[k' v] m Hk _ IH]; cbn [JsMap.set scanStaged].
  - by destruct set.
  - unfold nothing_staged in Hk. cbn in Hk. subst v.
    destruct (decide (k' = k)); cbn [scanStaged]; [by destruct set|exact IH].
Qed.

Lemma dispatch_dispatched srv env k calls :
  Forall (dispatched srv env) (dispatch srv env k calls).
Proof.
  revert k. induction calls as [|c calls IH]; intros k; cbn [dispatch]; constructor.
  - by exists k.
  - apply IH.
Qed.

Lemma loop_dispatched srv env backend inp left done np nr :
  Forall (dispatched srv env) done ->
  Forall (dispatched srv env) (steps (loop srv env backend inp left done np nr)).
Proof.
  revert done np nr. induction left as [|left IH]; intros done np nr Hd; cbn [loop].
  - done.
  - destruct (backend inp done) as [output|calls|message]; cbn [steps]; [done| |done].
    apply IH, Forall_app. split; [done|apply dispatch_dispatched].
Qed.

Lemma invoke_dispatched executor srv env backend inp :
  Forall (dispatched srv env) (steps (invoke executor srv env backend inp)).
Proof. apply loop_dispatched. constructor. Qed.

Lemma handleConversation_unfold kb srv env backend sessionId userMessage attachments :
  handleConversation kb srv env backend sessionId userMessage attachments
  = let srv1 := during srv sessionId attachments in
    let r := turnRun kb srv env backend sessionId userMessage attachments in
    match completion r with
    | Returned assistantOutput =>
        {| server :=
             {| tokens := tokens srv;
                conversationAttachments :=
                  if JsMap.has sessionId (conversationAttachments srv1)
                  then JsMap.delete sessionId (conversationAttachments srv1)
                  else conversationAttachments srv1;
                conversationHistories :=
                  <[sessionId := history srv1 sessionId
                                 ++ [ {| role := user; content := userMessage |};
                                      {| role := assistant; content := assistantOutput |} ]]>
                    (conversationHistories srv1) |};
           result := {| message := assistantOutput; success := true |};
           run := r |}
    | Thrown err_message =>
        {| server := srv1;
           result := {| message := lit "Error: " ++ err_message; success := false |};
           run := r |}
    end.
Proof. reflexivity. Qed.

Lemma handleConversation_run kb srv env backend sessionId userMessage attachments :
  run (handleConversation kb srv env backend sessionId userMessage attachments)
  = turnRun kb srv env backend sessionId userMessage attachments.
Proof.
  rewrite handleConversation_unfold. cbv zeta.
  by destruct (completion (turnRun kb srv env backend sessionId userMessage attachments)).
Qed.

Lemma handleConversation_returned kb srv env backend sessionId userMessage attachments output :
  completion (run (handleConversation kb srv env backend sessionId userMessage attachments))
  = Returned output ->
  success (result (handleConversation kb srv env backend sessionId userMessage attachments))
  = true
  /\ staged (server (handleConversation kb srv env backend sessionId userMessage attachments))
       sessionId = None.
Proof.
  rewrite handleConversation_run, handleConversation_unfold. cbv zeta.
  intros ->. split; [done|]. unfold staged. cbn [server conversationAttachments].
  destruct (JsMap.has sessionId (conversationAttachments (during srv sessionId attachments)))
    eqn:Hh.
  - apply JsMap_get_delete.
  - by apply JsMap_has_false.
Qed.

(** C2, as the code has it. The set a turn stages stays staged while the
    turn's executor runs: with nothing else staged, every authorized mail
    tool invocation of the run is offered that set, however many there
    are; and when the run returns an output, whatever its tool invocations
    answered, the session has nothing staged after the turn. *)
Theorem staged_set_removed_when_run_returns
    (kb : N -> JsString) (srv : Server) (env : Environment) (backend : Backend)
    (sessionId userMessage : JsString) (attachments : option (list Attachment)) :
  let t := handleConversation kb srv env backend sessionId userMessage attachments in
  (forall output, completion (run t) = Returned output ->
     success (result t) = true /\ staged (server t) sessionId = None)
  /\ (forall set tok s,
        attachments = Some set -> set <> [] -> tokens srv = Some tok ->
        Forall nothing_staged (conversationAttachments srv) ->
        s ∈ steps (run t) -> is_mail_call (action s) = true ->
        finalAttachments (outcome s) = Some set).
Proof.
  intros t. split.
  - intros output E. by eapply handleConversation_returned.
  - intros set tok s -> Hset Htok Hnone Hs Hmail.
    subst t. rewrite handleConversation_run in Hs.
    pose proof (invoke_dispatched createAgentExecutor (during srv sessionId (Some set))
                  env backend _ : Forall _ (steps (turnRun kb srv env backend sessionId
                                                     userMessage (Some set)))) as Hd.
    rewrite Forall_forall in Hd. destruct (Hd s Hs) as [k ->].
    assert (Hsel : forall a, selectAttachments (during srv sessionId (Some set)) a = set).
    { intros a. unfold selectAttachments, during. cbn [conversationAttachments nonEmpty].
      destruct set as [|x set]; [done|]. cbn [length Nat.ltb Nat.leb default].
      by apply scanStaged_set. }
    destruct (action s) as [a|a|name args]; [| |done]; cbn [invokeTool].
    + unfold sendEmailTool. cbn [during tokens]. rewrite Htok. cbn [finalAttachments].
      f_equal. apply Hsel.
    + unfold draftEmailTool. cbn [during tokens]. rewrite Htok. cbn [finalAttachments].
      f_equal. apply Hsel.
Qed.

(** C2 as the specification states it does not hold. A turn that stages
    one file and whose run sends the mail twice: both invocations are
    offered the file. A turn that stages one file and whose run fails: the
    file is still staged after the turn. *)
Lemma staged_set_not_consumed_once :
  ~ consumed_at_most_once
      (handleConversation Sample.toFixed1_KB Sample.fresh Sample.env Sample.sends_twice
         (lit "session_1") (lit "send it") (Some [Sample.f_txt]))
      (lit "session_1") [Sample.f_txt]
  /\ ~ consumed_at_most_once
         (handleConversation Sample.toFixed1_KB Sample.fresh Sample.env Sample.sends_then_fails
            (lit "session_1") (lit "send it") (Some [Sample.f_txt]))
         (lit "session_1") [Sample.f_txt].
Proof.
  split.
  - intros [_ H].
    specialize (H 0%nat 1%nat
      {| action := send_email Sample.hello;
         outcome := sendEmailTool
           (during Sample.fresh (lit "session_1") (Some [Sample.f_txt]))
           (Sample.env 0%nat) Sample.hello |}
      {| action := send_email Sample.hello;
         outcome := sendEmailTool
           (during Sample.fresh (lit "session_1") (Some [Sample.f_txt]))
           (Sample.env 1%nat) Sample.hello |}
      eq_refl eq_refl eq_refl eq_refl).
    discriminate H.
  - intros [H _]. vm_compute in H. discriminate H.
Qed.

Lemma staged_set_removed_when_run_returns_witness :
  let t := handleConversation Sample.toFixed1_KB Sample.fresh Sample.env Sample.sends_twice
             (lit "session_1") (lit "send it") (Some [Sample.f_txt]) in
  let second :=
    {| action := send_email Sample.hello;
       outcome := sendEmailTool
         (during Sample.fresh (lit "session_1") (Some [Sample.f_txt]))
         (Sample.env 1%nat) Sample.hello |} in
  staged (server t) (lit "session_1") = None
  /\ steps (run t) !! 1%nat = Some second
  /\ finalAttachments (outcome second) = Some [Sample.f_txt].
Proof.
  intros t second.
  destruct (staged_set_removed_when_run_returns Sample.toFixed1_KB Sample.fresh Sample.env
              Sample.sends_twice (lit "session_1") (lit "send it") (Some [Sample.f_txt]))
    as [H1 H2].
  split; [apply (H1 (lit "Sent.")); reflexivity|].
  split; [reflexivity|].
  apply (H2 [Sample.f_txt] (lit "ya29.token") second).
  - reflexivity.
  - discriminate.
  - reflexivity.
  - constructor.
  - apply (list_elem_of_lookup_2 _ 1%nat). reflexivity.
  - reflexivity.
Defined.

(** ** History *)

Lemma history_during srv sessionId attachments sid :
  history (during srv sessionId attachments) sid = history srv sid.
Proof.
  unfold history, during. cbn [conversationHistories].
  destruct (conversationHistories srv !! sessionId) eqn:E; [done|].
  destruct (decide (sessionId = sid)) as [<-|Hne].
  - by rewrite lookup_insert_eq, E.
  - by rewrite lookup_insert_ne.
Qed.

Lemma loop_thrown srv env backend inp left done np nr e :
  completion (loop srv env backend inp left done np nr) = Thrown e ->
  exists done', backend inp done' = PlanError e.
Proof.
  revert done np nr. induction left as [|left IH]; intros done np nr; cbn [loop].
  - discriminate.
  - destruct (backend inp done) as [output|calls|message] eqn:E; cbn [completion].
    + discriminate.
    + apply IH.
    + intros [= <-]. eauto.
Qed.

Lemma handleConversation_thrown kb srv env backend sessionId userMessage attachments e :
  completion (run (handleConversation kb srv env backend sessionId userMessage attachments))
  = Thrown e ->
  handleConversation kb srv env backend sessionId userMessage attachments
  = {| server := during srv sessionId attachments;
       result := {| message := lit "Error: " ++ e; success := false |};
       run := turnRun kb srv env backend sessionId userMessage attachments |}.
Proof.
  rewrite handleConversation_run, handleConversation_unfold. cbv zeta.
  by intros ->.
Qed.

(** C7. When the call to the reasoning backend fails, [executor.invoke]
    rejects with the backend's error; and whenever it rejects,
    [handleConversation] returns [success: false] with the error's message
    after "Error: ", and every session's history holds the turns it held
    before: neither the user's turn nor an assistant turn was appended. *)
Theorem reasoning_failure_leaves_history
    (kb : N -> JsString) (srv : Server) (env : Environment) (backend : Backend)
    (sessionId userMessage : JsString) (attachments : option (list Attachment))
    (e : JsString) :
  let t := handleConversation kb srv env backend sessionId userMessage attachments in
  ((forall inp, backend inp [] = PlanError e) -> completion (run t) = Thrown e)
  /\ (completion (run t) = Thrown e ->
      (exists inp done, backend inp done = PlanError e)
      /\ result t = {| message := lit "Error: " ++ e; success := false |}
      /\ forall sid, history (server t) sid = history srv sid).
Proof.
  intros t. subst t. split.
  - intros Hb. rewrite handleConversation_run. unfold turnRun, invoke.
    cbn [maxIterations createAgentExecutor loop]. by rewrite Hb.
  - intros E. split.
    + rewrite handleConversation_run in E. unfold turnRun, invoke in E.
      apply loop_thrown in E as [done' E]. eauto.
    + rewrite (handleConversation_thrown _ _ _ _ _ _ _ _ E). cbn [result server].
      split; [done|]. intros sid. apply history_during.
Qed.

Lemma reasoning_failure_leaves_history_witness :
  let srv := {| tokens := Some (lit "ya29.token");
                conversationAttachments := [];
                conversationHistories :=
                  {[ lit "session_1" :=
                       [ {| role := user; content := lit "hi" |};
                         {| role := assistant; content := lit "Hello!" |} ] ]} |} in
  let t := handleConversation Sample.toFixed1_KB srv Sample.env Sample.unreachable
             (lit "session_1") (lit "send it") None in
  result t = {| message := lit "Error: network"; success := false |}
  /\ history (server t) (lit "session_1") = history srv (lit "session_1").
Proof.
  intros srv t.
  destruct (reasoning_failure_leaves_history Sample.toFixed1_KB srv Sample.env
              Sample.unreachable (lit "session_1") (lit "send it") None (lit "network"))
    as [H1 H2].
  destruct H2 as (_ & Hr & Hh).
  - apply H1. reflexivity.
  - split; [exact Hr|apply Hh].
Defined.

Lemma history_returned kb srv env backend sessionId userMessage attachments output sid :
  completion (run (handleConversation kb srv env backend sessionId userMessage attachments))
  = Returned output ->
  history (server (handleConversation kb srv env backend sessionId userMessage attachments)) sid
  = history srv sid
    ++ (if decide (sessionId = sid)
        then [ {| role := user; content := userMessage |};
               {| role := assistant; content := output |} ]
        else []).
Proof.
  rewrite handleConversation_run, handleConversation_unfold. cbv zeta.
  intros ->. cbn [server]. unfold history at 1. cbn [conversationHistories].
  destruct (decide (sessionId = sid)) as [<-|Hne].
  - rewrite lookup_insert_eq. cbn [default]. by rewrite history_during.
  - rewrite lookup_insert_ne by done. rewrite app_nil_r.
    apply (history_during srv sessionId attachments sid).
Qed.

Lemma handleRequest_history kb srv r sid :
  history (server (handleRequest kb srv r)) sid
  = history srv sid ++ appendedBy kb srv r sid.
Proof.
  unfold appendedBy, handleRequest.
  destruct (completion (run (handleConversation kb srv (req_env r) (req_backend r)
              (req_sessionId r) (req_message r) (req_attachments r)))) as [output|e] eqn:E.
  - by rewrite (history_returned _ _ _ _ _ _ _ output sid E).
  - rewrite (handleConversation_thrown _ _ _ _ _ _ _ _ E). cbn [server].
    rewrite history_during. destruct (decide _); by rewrite app_nil_r.
Qed.

Lemma handleAll_history kb srv reqs sid :
  history (handleAll kb srv reqs) sid
  = history srv sid ++ appendedByAll kb srv reqs sid.
Proof.
  revert srv. induction reqs as [|r reqs IH]; intros srv; cbn [handleAll appendedByAll].
  - by rewrite app_nil_r.
  - by rewrite IH, handleRequest_history, app_assoc.
Qed.

(** C8. The history of every session only ever grows at its end. A
    request whose run returns appends to its own session exactly the
    user's turn followed by the assistant's and leaves every other
    session's history as it was; after any sequence of requests a session's
    history is the one it had, unchanged, followed by the turns its
    requests appended, in the order of the requests. *)
Theorem history_is_append_only (kb : N -> JsString) :
  (forall srv r output,
     completion (run (handleRequest kb srv r)) = Returned output ->
     history (server (handleRequest kb srv r)) (req_sessionId r)
     = history srv (req_sessionId r)
       ++ [ {| role := user; content := req_message r |};
            {| role := assistant; content := output |} ]
     /\ forall sid, sid <> req_sessionId r ->
          history (server (handleRequest kb srv r)) sid = history srv sid)
  /\ (forall srv r sid,
        history (server (handleRequest kb srv r)) sid
        = history srv sid ++ appendedBy kb srv r sid)
  /\ (forall srv reqs sid,
        history (handleAll kb srv reqs) sid
        = history srv sid ++ appendedByAll kb srv reqs sid).
Proof.
  split; [|split].
  - intros srv r output E. split.
    + rewrite handleRequest_history. unfold appendedBy. rewrite E.
      by destruct (decide (req_sessionId r = req_sessionId r)).
    + intros sid Hne. rewrite handleRequest_history. unfold appendedBy.
      destruct (decide (req_sessionId r = sid)); [by subst|by rewrite app_nil_r].
  - apply handleRequest_history.
  - apply handleAll_history.
Qed.

Lemma history_is_append_only_witness :
  let r := {| req_sessionId := lit "session_1"; req_message := lit "hi";
              req_attachments := None; req_env := Sample.env;
              req_backend := Sample.answers |} in
  history (server (handleRequest Sample.toFixed1_KB Sample.fresh r)) (lit "session_1")
  = [ {| role := user; content := lit "hi" |};
      {| role := assistant; content := lit "Hello!" |} ].
Proof.
  intros r.
  destruct (history_is_append_only Sample.toFixed1_KB) as [H _].
  destruct (H Sample.fresh r (lit "Hello!")) as [E _]; [reflexivity|].
  exact E.
Defined.

(** ** The chat endpoint *)

(** C9. The answers of [POST /api/agent/chat], in the order the handler
    decides them: a request body that cannot be read makes it fail and
    answer 500 with [success: false]; a missing (or empty) [message]
    answers 400; with a message but no stored tokens it answers 401;
    otherwise it answers with what [handleConversation] returns, a message
    and a success flag. *)
Theorem chat_status_codes
    (kb : N -> JsString) (srv : Server) (now : N) (env : Environment)
    (backend : Backend) (req_body : option ChatBody) :
  let res := (chat kb srv now env backend req_body).2 in
  (req_body = None -> status res = 500 /\ success (json res) = false)
  /\ (forall b, req_body = Some b -> falsy (body_message b) = true ->
        status res = 400 /\ success (json res) = false)
  /\ (forall b, req_body = Some b -> falsy (body_message b) = false ->
        tokens srv = None ->
        status res = 401 /\ success (json res) = false)
  /\ (forall b tok, req_body = Some b -> falsy (body_message b) = false ->
        tokens srv = Some tok ->
        exists sid,
          status res = 200
          /\ json res = result (handleConversation kb srv env backend sid
                                  (default [] (body_message b)) (body_attachments b))
          /\ (falsy (body_sessionId b) = false -> body_sessionId b = Some sid)
          /\ (falsy (body_sessionId b) = true -> sid = lit "session_" ++ decimal now)).
Proof.
  intros res. subst res. unfold chat. split; [|split; [|split]].
  - by intros ->.
  - intros b -> Hm. by rewrite Hm.
  - intros b -> Hm Htok. by rewrite Hm, Htok.
  - intros b tok -> Hm Htok. rewrite Hm, Htok. cbn [snd].
    destruct (falsy (body_sessionId b)) eqn:Hs.
    + eexists. split; [done|]. split; [done|]. split; [done|].
      intros _. reflexivity.
    + eexists. split; [done|]. split; [done|]. split; [|done].
      intros _. destruct (body_sessionId b); [done|discriminate Hs].
Qed.

Lemma chat_status_codes_witness :
  let ask := Some {| body_message := Some (lit "hi");
                     body_sessionId := Some (lit "session_1");
                     body_attachments := None |} in
  let unauthorized := {| tokens := None; conversationAttachments := [];
                         conversationHistories := ∅ |} in
  status (chat Sample.toFixed1_KB Sample.fresh 0 Sample.env Sample.answers None).2 = 500
  /\ status (chat Sample.toFixed1_KB Sample.fresh 0 Sample.env Sample.answers
               (Some {| body_message := None; body_sessionId := None;
                        body_attachments := None |})).2 = 400
  /\ status (chat Sample.toFixed1_KB unauthorized 0 Sample.env Sample.answers ask).2 = 401
  /\ (chat Sample.toFixed1_KB Sample.fresh 0 Sample.env Sample.answers ask).2
     = {| status := 200; json := {| message := lit "Hello!"; success := true |} |}.
Proof.
  intros ask unauthorized. split; [|split; [|split]].
  - apply (chat_status_codes Sample.toFixed1_KB Sample.fresh 0 Sample.env Sample.answers None).
    reflexivity.
  - eapply (chat_status_codes Sample.toFixed1_KB Sample.fresh 0 Sample.env Sample.answers);
      reflexivity.
  - eapply (chat_status_codes Sample.toFixed1_KB unauthorized 0 Sample.env Sample.answers ask);
      reflexivity.
  - destruct (chat_status_codes Sample.toFixed1_KB Sample.fresh 0 Sample.env Sample.answers ask)
      as (_ & _ & _ & H).
    destruct (H _ (lit "ya29.token") eq_refl eq_refl eq_refl) as (sid & H1 & H2 & H3 & _).
    specialize (H3 eq_refl). injection H3 as <-.
    destruct (chat _ _ _ _ _ _).2 as [st js]. cbn in H1, H2. by subst.
Defined.

(** * Further properties *)

(** ** The envelope is URL-safe *)

Lemma url_safe_padded (core : JsString) (k : nat) :
  Forall alphabetic core ->
  url_safe (core ++ List.repeat pad k) = replace_all 47 95 (replace_all 43 45 core).
Proof.
  intros Hc. unfold url_safe, replace_all at 1 2. rewrite !List.map_app.
  fold (replace_all 43 45 (List.repeat pad k)).
  rewrite replace_all_pads by done.
  fold (replace_all 47 95 (List.repeat pad k)).
  rewrite replace_all_pads by done.
  fold (replace_all 43 45 core). fold (replace_all 47 95 (replace_all 43 45 core)).
  by apply strip_trailing_eq_core, substituted_not_pad.
Qed.

Lemma substituted_url_safe (core : JsString) :
  Forall alphabetic core ->
  Forall (fun c => url_safe_char c = true) (replace_all 47 95 (replace_all 43 45 core)).
Proof.
  induction 1 as [|c core [i Hi] _ IH]; rewrite ?replace_all_cons; constructor;
    [|exact IH].
  revert Hi. unfold b64_index, url_safe_char, is_ascii_letter.
  destruct (N.eqb_spec c 43) as [->|]; [done|].
  destruct (N.eqb_spec c 47) as [->|]; [done|].
  ncases; try discriminate; done.
Qed.

Lemma url_safe_base64_chars (bs : Bytes) :
  Forall (fun c => url_safe_char c = true) (url_safe (base64_encode bs)).
Proof.
  destruct (base64_encode_form bs) as (core & k & -> & Hc & _).
  rewrite url_safe_padded by done. by apply substituted_url_safe.
Qed.

(** X1. Whatever their arguments, both builders return a string made of
    letters, digits, [-] and [_] only: no [+], no [/], no [=] padding. *)
Theorem envelopes_are_url_safe w to subject body cc bcc atts :
  Forall (fun c => url_safe_char c = true) (createSimpleEmail w to subject body cc bcc)
  /\ Forall (fun c => url_safe_char c = true)
       (createEmailWithAttachments w to subject body cc bcc atts).
Proof. split; apply url_safe_base64_chars. Qed.

(** ** Reading a multipart message back *)

(** X2. For header values without carriage return, the envelope of
    [createEmailWithAttachments] decodes to a message whose first blank
    line separates exactly the header block from the parts, and whose
    first part has a blank line of its own followed by the base64 of the
    body, which decodes to the body's UTF-8 bytes. *)
Theorem multipart_message_reads_back w to subject body cc bcc atts :
  no_CR (GMAIL_USER w) -> no_CR to -> no_CR subject ->
  Forall no_CR cc -> Forall no_CR bcc ->
  let text := finalMessage w to subject body cc bcc atts in
  base64url_decode (createEmailWithAttachments w to subject body cc bcc atts)
  = Some (utf8_encode text)
  /\ split_blank_line text
     = Some (headers w to subject cc bcc,
             bodyPart w body ++ attachmentParts w atts
             ++ lit "--" ++ boundary w ++ lit "--")
  /\ (exists head,
        split_blank_line (bodyPart w body) = Some (head, body_base64 body ++ CRLF))
  /\ base64_decode (body_base64 body) = Some (utf8_encode body).
Proof.
  intros Hu Ht Hs Hcc Hbcc text.
  destruct (finalMessage_blank_line w to subject body cc bcc atts Hu Ht Hs Hcc Hbcc)
    as (H1 & H2 & H3).
  split; [apply createEmailWithAttachments_decoded|].
  split; [exact H1|]. split; [eauto|exact H3].
Qed.

Lemma multipart_message_reads_back_witness :
  split_blank_line
    (finalMessage (Sample.world 7) (lit "a@x.com") (lit "Hi") (lit "Hello")
       [lit "c@x.com"] [] [Sample.f_txt])
  = Some (headers (Sample.world 7) (lit "a@x.com") (lit "Hi") [lit "c@x.com"] [],
          bodyPart (Sample.world 7) (lit "Hello")
          ++ attachmentParts (Sample.world 7) [Sample.f_txt]
          ++ lit "--" ++ boundary (Sample.world 7) ++ lit "--").
Proof.
  apply (multipart_message_reads_back (Sample.world 7) (lit "a@x.com") (lit "Hi")
           (lit "Hello") [lit "c@x.com"] [] [Sample.f_txt]).
  - by apply no_CR_lit.
  - by apply no_CR_lit.
  - by apply no_CR_lit.
  - constructor; [by apply no_CR_lit|constructor].
  - constructor.
Defined.

(** ** The header block, line by line *)

Lemma crlf_lines_cons (s : JsString) : exists l ls, crlf_lines s = l :: ls.
Proof.
  induction s as [|c s (l & ls & IH)]; cbn [crlf_lines]; [eauto|].
  destruct s as [|d rest]; [eauto|]. rewrite IH.
  destruct ((c =? 13) && (d =? 10)); eauto.
Qed.

Lemma crlf_lines_skip (l x : JsString) :
  no_CR l ->
  crlf_lines (l ++ x)
  = match crlf_lines x with
    | h :: t => (l ++ h) :: t
    | [] => [l]
    end.
Proof.
  destruct (crlf_lines_cons x) as (h & t & E). rewrite E.
  induction 1 as [|c l Hc _ IH]; cbn [app]; [done|].
  cbn [crlf_lines]. rewrite IH.
  destruct (l ++ x) as [|d rest] eqn:E'.
  - apply app_eq_nil in E' as [-> ->]. cbn in E. by injection E as <- <-.
  - by destruct (N.eqb_spec c 13).
Qed.

(** Lines without carriage return, joined by CRLF, split back into
    themselves. *)
Lemma crlf_lines_joined (lines : list JsString) :
  Forall no_CR lines -> lines <> [] -> crlf_lines (join CRLF lines) = lines.
Proof.
  induction 1 as [|l lines Hl Hrest IH]; [done|]. intros _.
  destruct lines as [|l' lines].
  - cbn [join]. rewrite <- (app_nil_r l) at 1. rewrite crlf_lines_skip by done.
    cbn. by rewrite app_nil_r.
  - change (join CRLF (l :: l' :: lines)) with (l ++ 13 :: 10 :: join CRLF (l' :: lines)).
    rewrite crlf_lines_skip by done.
    change (crlf_lines (13 :: 10 :: join CRLF (l' :: lines)))
      with ([] :: crlf_lines (join CRLF (l' :: lines))).
    rewrite IH by done. by rewrite app_nil_r.
Qed.

(** X3. For header values without carriage return, the header block of
    [createEmailWithAttachments], split at its CRLFs, is exactly: From, To,
    a Cc line when and only when the Cc list is not empty, a Bcc line when
    and only when the Bcc list is not empty, Subject, MIME-Version and the
    multipart Content-Type; recipients are joined by a comma and a space. *)
Theorem header_block_lines w to subject cc bcc :
  no_CR (GMAIL_USER w) -> no_CR to -> no_CR subject ->
  Forall no_CR cc -> Forall no_CR bcc ->
  crlf_lines (headers w to subject cc bcc)
  = [ lit "From: " ++ GMAIL_USER w; lit "To: " ++ to ]
    ++ match cc with [] => [] | _ => [lit "Cc: " ++ join (lit ", ") cc] end
    ++ match bcc with [] => [] | _ => [lit "Bcc: " ++ join (lit ", ") bcc] end
    ++ [ lit "Subject: " ++ subject;
         lit "MIME-Version: 1.0";
         lit "Content-Type: multipart/mixed; boundary=" ++ dquote
           ++ boundary w ++ dquote ].
Proof.
  intros Hu Ht Hs Hcc Hbcc. rewrite headers_lines.
  rewrite crlf_lines_joined.
  - by destruct cc, bcc.
  - assert (H : Forall header_line
      ([lit "From: " ++ GMAIL_USER w; lit "To: " ++ to]
       ++ (if (0 <? length cc)%nat then [lit "Cc: " ++ join (lit ", ") cc] else [])
       ++ (if (0 <? length bcc)%nat then [lit "Bcc: " ++ join (lit ", ") bcc] else [])
       ++ [lit "Subject: " ++ subject; lit "MIME-Version: 1.0";
           lit "Content-Type: multipart/mixed; boundary=" ++ dquote
             ++ boundary w ++ dquote])).
    { destruct (0 <? length cc)%nat, (0 <? length bcc)%nat; header_lines. }
    eapply Forall_impl; [exact H|]. by intros l [_ Hl].
  - done.
Qed.

Lemma header_block_lines_witness :
  crlf_lines (headers (Sample.world 7) (lit "a@x.com") (lit "Hi")
                [lit "c@x.com"; lit "d@x.com"] [])
  = [ lit "From: me@x.com"; lit "To: a@x.com"; lit "Cc: c@x.com, d@x.com";
      lit "Subject: Hi"; lit "MIME-Version: 1.0";
      lit "Content-Type: multipart/mixed; boundary=" ++ dquote
        ++ lit "boundary_7" ++ dquote ].
Proof.
  apply (header_block_lines (Sample.world 7) (lit "a@x.com") (lit "Hi")
           [lit "c@x.com"; lit "d@x.com"] []).
  - by apply no_CR_lit.
  - by apply no_CR_lit.
  - by apply no_CR_lit.
  - repeat (constructor; [by apply no_CR_lit|]). constructor.
  - constructor.
Defined.

(** ** The content type *)

Lemma existsb_gt (s : JsString) :
  existsb (N.eqb 62) s = true <-> exists mid post, s = mid ++ 62 :: post.
Proof.
  split.
  - induction s as [|c s IH]; cbn [existsb]; [done|].
    destruct (N.eqb_spec 62 c) as [<-|Hc]; cbn [orb].
    + intros _. by exists [], s.
    + intros (mid & post & ->)%IH. by exists (c :: mid), post.
  - intros (mid & post & ->). induction mid as [|c mid IH]; cbn [app existsb].
    + by rewrite N.eqb_refl.
    + rewrite IH. by destruct (62 =? c).
Qed.

(** X4. The body is sent as [text/html] exactly when it holds a [<]
    directly followed by an ASCII letter and, anywhere after that letter, a
    [>]; otherwise as [text/plain]. *)
Theorem html_detection (body : JsString) :
  (isHtml body = true <->
   exists pre l mid post,
     body = pre ++ 60 :: l :: mid ++ 62 :: post /\ is_ascii_letter l = true)
  /\ contentType body
     = (if isHtml body then lit "text/html; charset=UTF-8"
        else lit "text/plain; charset=UTF-8").
Proof.
  split; [|reflexivity]. split.
  - induction body as [|c rest IH]; cbn [isHtml]; [done|].
    intros [H|H]%orb_true_iff.
    + apply andb_true_iff in H as [Hc H]. apply N.eqb_eq in Hc as ->.
      destruct rest as [|d rest']; [done|].
      apply andb_true_iff in H as [Hd (mid & post & ->)%existsb_gt].
      by exists [], d, mid, post.
    + destruct (IH H) as (pre & l & mid & post & -> & Hl).
      by exists (c :: pre), l, mid, post.
  - intros (pre & l & mid & post & -> & Hl).
    induction pre as [|c pre IH]; cbn [app isHtml].
    + rewrite N.eqb_refl, Hl. cbn [andb].
      replace (existsb (N.eqb 62) (mid ++ 62 :: post)) with true; [done|].
      symmetry. apply existsb_gt. eauto.
    + rewrite IH. apply orb_true_r.
Qed.

Lemma html_detection_witness :
  contentType (lit "see <b>this</b>") = lit "text/html; charset=UTF-8".
Proof.
  destruct (html_detection (lit "see <b>this</b>")) as [[_ H] ->].
  rewrite H; [reflexivity|].
  exists (lit "see "), 98, [], (lit "this</b>"). split; reflexivity.
Defined.

(** ** Wrapping twice *)

Lemma match_chunks_run (p x acc : JsString) :
  plain p -> (length acc + length p <= 76)%nat ->
  match_chunks (p ++ x) acc = match_chunks x (acc ++ p).
Proof.
  intros Hp. revert acc. induction Hp as [|c p Hc _ IH]; intros acc Hl; cbn [app].
  - by rewrite app_nil_r.
  - cbn [match_chunks]. rewrite Hc. cbn [length] in Hl.
    destruct (Nat.ltb_spec (length acc) 76); [|lia].
    rewrite IH by (rewrite length_app; cbn; lia). by rewrite <- app_assoc.
Qed.

Lemma match_chunks_joined (chunks : list JsString) :
  Forall chunk chunks -> match_chunks (join CRLF chunks) [] = chunks.
Proof.
  induction 1 as [|p chunks [Hp Hl] Hrest IH]; [done|].
  destruct p as [|c p]; [cbn in Hl; lia|].
  destruct chunks as [|q chunks].
  - cbn [join]. rewrite <- (app_nil_r (c :: p)) at 1.
    rewrite match_chunks_run by (done || (cbn in *; lia)). done.
  - change (join CRLF ((c :: p) :: q :: chunks))
      with ((c :: p) ++ 13 :: 10 :: join CRLF (q :: chunks)).
    rewrite match_chunks_run by (done || (cbn in *; lia)).
    cbn [app match_chunks is_line_terminator N.eqb Pos.eqb orb truthy].
    by rewrite IH.
Qed.

(** X5. Wrapping is stable: a payload that [wrapBase64] has produced (or
    any text already cut into lines of at most 76 characters) comes out of
    [wrapBase64] unchanged. *)
Theorem wrapBase64_idempotent (str : JsString) :
  wrapBase64 (wrapBase64 str) = wrapBase64 str.
Proof.
  unfold wrapBase64 at 2 3.
  destruct (match_chunks_spec str []) as [Hc _]; [constructor|cbn; lia|].
  destruct (match_chunks str []) as [|p chunks] eqn:E.
  - unfold wrapBase64. by rewrite E.
  - unfold wrapBase64. rewrite match_chunks_joined by done. done.
Qed.

(** ** An attachment's bytes *)

Lemma strip_prefix_head (c : N) (p s r : JsString) :
  strip_prefix (c :: p) s = Some r -> exists s', s = c :: s'.
Proof.
  destruct s as [|x s]; cbn [strip_prefix]; [done|].
  destruct (N.eqb_spec x c) as [->|]; [eauto|done].
Qed.

(** Text without a colon has no data-URI prefix to lose. *)
Lemma stripDataUri_no_colon (s : JsString) :
  Forall (fun c => c <> 58) s -> stripDataUri s = s.
Proof.
  intros Hs. unfold stripDataUri.
  destruct (strip_prefix (lit "data:") s) as [r|] eqn:E; [|done].
  apply strip_prefix_Some in E as ->. exfalso.
  rewrite Forall_forall in Hs. apply (Hs 58); [|done].
  cbn. repeat constructor.
Qed.

Lemma alphabetic_text (c : N) :
  alphabetic c -> c <> 58 /\ is_line_terminator c = false.
Proof.
  intros [i Hi]. revert Hi. unfold b64_index, is_line_terminator.
  ncases; try discriminate; done.
Qed.

Lemma base64_encode_text (bs : Bytes) :
  Forall (fun c => c <> 58) (base64_encode bs) /\ plain (base64_encode bs).
Proof.
  destruct (base64_encode_form bs) as (core & k & -> & Hc & _). split.
  - apply Forall_app. split.
    + eapply Forall_impl; [exact Hc|]. intros c H. by apply alphabetic_text.
    + clear. induction k; constructor; done.
  - apply Forall_app. split.
    + eapply Forall_impl; [exact Hc|]. intros c H. by apply alphabetic_text.
    + clear. induction k; constructor; done.
Qed.

(** X6. An attachment whose data is the base64 of some bytes, with or
    without a data-URI prefix before it, is carried whole: the payload of
    its part, its line breaks taken out, is that base64 and decodes to
    those bytes. *)
Theorem attachment_bytes_recovered (att : Attachment) (bs : Bytes) :
  Forall byte bs ->
  (att_data att = base64_encode bs
   \/ exists p, dataUriPrefix p /\ att_data att = p ++ base64_encode bs) ->
  unwrapped (attachmentPayload att) = base64_encode bs
  /\ base64_decode (unwrapped (attachmentPayload att)) = Some bs.
Proof.
  intros Hb Hdata.
  destruct (base64_encode_text bs) as [Hcolon Hplain].
  assert (E : stripDataUri (att_data att) = base64_encode bs).
  { destruct Hdata as [->|(p & Hp & ->)].
    - by apply stripDataUri_no_colon.
    - by apply stripDataUri_prefixed. }
  assert (E' : unwrapped (attachmentPayload att) = base64_encode bs).
  { unfold attachmentPayload. rewrite wrapBase64_unwrapped, E.
    by apply unwrapped_plain. }
  split; [exact E'|]. rewrite E'. by apply base64_decode_encode.
Qed.

Lemma attachment_bytes_recovered_witness :
  base64_decode (unwrapped (attachmentPayload Sample.f_txt)) = Some [65; 66; 67].
Proof.
  apply (attachment_bytes_recovered Sample.f_txt [65; 66; 67]).
  - repeat constructor.
  - right. exists (lit "data:text/plain;base64,"). split; [|reflexivity].
    exists (lit "text/plain"). split; [reflexivity|]. split; [done|].
    repeat (constructor; [done|]). constructor.
Defined.

(** ** Numbers in text *)

Lemma digits_acc (fuel : nat) (n : N) (acc : JsString) :
  digits fuel n acc = digits fuel n [] ++ acc.
Proof.
  revert n acc. induction fuel as [|fuel IH]; intros n acc; cbn [digits]; [done|].
  destruct (n / 10 =? 0); [done|].
  rewrite (IH _ ((48 + n mod 10) :: acc)), (IH _ [48 + n mod 10]).
  by rewrite <- app_assoc.
Qed.

Lemma parse_decimal_snoc (s : JsString) (d : N) :
  parse_decimal (s ++ [d]) = parse_decimal s * 10 + (d - 48).
Proof. unfold parse_decimal. by rewrite fold_left_app. Qed.

Lemma parse_digits (fuel : nat) (n : N) :
  n < 2 ^ N.of_nat fuel -> parse_decimal (digits fuel n []) = n.
Proof.
  revert n. induction fuel as [|fuel IH]; intros n Hn.
  - cbn in Hn. assert (n = 0) as -> by lia. done.
  - cbn [digits]. destruct (N.eqb_spec (n / 10) 0) as [E|E].
    + unfold parse_decimal. cbn [fold_left]. ndivmod.
    + rewrite digits_acc, parse_decimal_snoc, IH.
      * ndivmod.
      * rewrite Nat2N.inj_succ, N.pow_succ_r' in Hn.
        assert (n / 10 <= n / 2) by ndivmod.
        assert (n / 2 < 2 ^ N.of_nat fuel) by (apply N.Div0.div_lt_upper_bound; lia).
        lia.
Qed.

(** [String(n)] read back as a number is [n]. *)
Lemma parse_decimal_decimal (n : N) : parse_decimal (decimal n) = n.
Proof.
  unfold decimal. apply parse_digits.
  rewrite Nat2N.inj_succ, N2Nat.id.
  destruct (N.eq_dec n 0) as [->|Hn]; [done|].
  apply N.log2_spec. lia.
Qed.

Lemma decimal_inj (a b : N) : decimal a = decimal b -> a = b.
Proof.
  intros E. by rewrite <- (parse_decimal_decimal a), <- (parse_decimal_decimal b), E.
Qed.

Lemma digits_are_digits (fuel : nat) (n : N) (acc : JsString) :
  Forall (fun c => boundary_char c = true) acc ->
  Forall (fun c => boundary_char c = true) (digits fuel n acc).
Proof.
  revert n acc. induction fuel as [|fuel IH]; intros n acc Hacc; cbn [digits]; [done|].
  assert (Forall (fun c => boundary_char c = true) ((48 + n mod 10) :: acc)).
  { constructor; [|done]. pose proof (N.mod_upper_bound n 10).
    unfold boundary_char. ncases; done. }
  destruct (n / 10 =? 0); [done|by apply IH].
Qed.

(** X7. The boundary of a multipart message is [boundary_] followed by the
    clock reading in decimal: lower-case letters, digits and [_] only (so
    it needs no escaping between the quotes of the Content-Type line), and
    two messages have the same boundary exactly when they were built at
    the same clock reading. *)
Theorem boundary_from_clock (w1 w2 : World) :
  Forall (fun c => boundary_char c = true) (boundary w1)
  /\ (boundary w1 = boundary w2 <-> Date_now w1 = Date_now w2).
Proof.
  split.
  - unfold boundary. apply Forall_app. split.
    + apply Forall_forall. intros c Hc%list_elem_of_In.
      assert (H : forallb boundary_char (lit "boundary_") = true) by reflexivity.
      rewrite forallb_forall in H. by apply H.
    + apply digits_are_digits. constructor.
  - unfold boundary. split.
    + intros E%app_inv_head. by apply decimal_inj.
    + by intros ->.
Qed.

Lemma boundary_from_clock_witness :
  boundary (Sample.world 1730000000000) <> boundary (Sample.world 1730000000001).
Proof.
  intros E.
  apply (boundary_from_clock (Sample.world 1730000000000) (Sample.world 1730000000001)) in E.
  discriminate E.
Defined.

(** ** Recipient lists *)

Lemma split_comma_cons (s : JsString) : exists p ps, split_comma s = p :: ps.
Proof.
  induction s as [|c s (p & ps & IH)]; cbn [split_comma]; [eauto|].
  rewrite IH. destruct (c =? 44); eauto.
Qed.

Lemma split_comma_skip (l x : JsString) :
  comma_free l ->
  split_comma (l ++ x)
  = match split_comma x with
    | h :: t => (l ++ h) :: t
    | [] => [l]
    end.
Proof.
  destruct (split_comma_cons x) as (h & t & E). rewrite E.
  induction 1 as [|c l Hc _ IH]; cbn [app split_comma]; [done|].
  rewrite IH. by destruct (N.eqb_spec c 44).
Qed.

Lemma split_comma_joined (pieces : list JsString) :
  Forall comma_free pieces -> pieces <> [] ->
  split_comma (join [44] pieces) = pieces.
Proof.
  induction 1 as [|l pieces Hl Hrest IH]; [done|]. intros _.
  destruct pieces as [|l' pieces].
  - cbn [join]. rewrite <- (app_nil_r l) at 1. rewrite split_comma_skip by done.
    cbn. by rewrite app_nil_r.
  - change (join [44] (l :: l' :: pieces)) with (l ++ 44 :: join [44] (l' :: pieces)).
    rewrite split_comma_skip by done.
    change (split_comma (44 :: join [44] (l' :: pieces)))
      with ([] :: split_comma (join [44] (l' :: pieces))).
    rewrite IH by done. by rewrite app_nil_r.
Qed.

Lemma trim_start_blank (l x : JsString) : blank l -> trim_start (l ++ x) = trim_start x.
Proof. induction 1 as [|c l Hc _ IH]; cbn [app trim_start]; [done|]. by rewrite Hc. Qed.

Lemma trim_start_nil_blank (l : JsString) : blank l -> trim_start l = [].
Proof. intros H. rewrite <- (app_nil_r l). by rewrite trim_start_blank. Qed.

Lemma blank_rev (l : JsString) : blank l -> blank (rev l).
Proof. intros H. by apply Forall_rev. Qed.

Lemma blank_comma_free (l : JsString) : blank l -> comma_free l.
Proof.
  intros H. eapply Forall_impl; [exact H|]. by intros c Hc ->.
Qed.

Lemma trim_typed (t : Typed) : well_typed t -> trim (typed_text t) = address t.
Proof.
  intros (Hb & Ha & _ & Ht). unfold trim, typed_text.
  rewrite trim_start_blank by done.
  destruct (address t) as [|c e]; cbn [app].
  - rewrite (trim_start_nil_blank (after t)) by done. cbn [rev].
    done.
  - destruct Ht as [Hc Hlast]. cbn [trim_start]. rewrite Hc.
    change (c :: e ++ after t) with ((c :: e) ++ after t).
    rewrite rev_app_distr, trim_start_blank by by apply blank_rev.
    destruct (rev (c :: e)) as [|z r] eqn:E.
    + apply (f_equal (@length N)) in E. rewrite length_rev in E. done.
    + assert (Hz : hd c (rev (c :: e)) = List.last e c).
      { destruct (decide (e = [])) as [->|Hne]; [done|].
        destruct (exists_last Hne) as (e' & y & ->).
        cbn [rev]. rewrite rev_app_distr. cbn. by rewrite List.last_last. }
      rewrite E in Hz. cbn [hd] in Hz.
      cbn [trim_start]. rewrite Hz, Hlast, <- Hz, <- E. apply rev_involutive.
Qed.

(** X8. A comma-separated recipient string is read back address by
    address: when each address is typed with any white space around it,
    has no comma in it and neither starts nor ends with white space, the
    list the mail tools put on the Cc or Bcc line is exactly these
    addresses, in order. *)
Theorem recipients_read_back (typed : list Typed) :
  Forall well_typed typed ->
  join [44] (List.map typed_text typed) <> [] ->
  recipientList (Some (join [44] (List.map typed_text typed)))
  = List.map address typed.
Proof.
  intros Ht Hne. unfold recipientList.
  destruct typed as [|t0 typed]; [done|].
  destruct (join [44] (List.map typed_text (t0 :: typed))) as [|c s] eqn:E; [done|].
  cbn [truthy]. rewrite <- E. clear c s E Hne.
  rewrite split_comma_joined.
  - rewrite List.map_map. apply List.map_ext_in.
    intros x Hx%list_elem_of_In. rewrite Forall_forall in Ht. by apply trim_typed, Ht.
  - apply Forall_map. eapply Forall_impl; [exact Ht|].
    intros t (Hb & Ha & Hc & _). unfold typed_text.
    apply Forall_app. split; [by apply blank_comma_free|].
    apply Forall_app. split; [done|by apply blank_comma_free].
  - done.
Qed.

Lemma recipients_read_back_witness :
  recipientList (Some (lit " a@x.com , b@x.com")) = [lit "a@x.com"; lit "b@x.com"].
Proof.
  apply (recipients_read_back
           [ {| before := lit " "; address := lit "a@x.com"; after := lit " " |};
             {| before := lit " "; address := lit "b@x.com"; after := [] |} ]).
  - repeat constructor; cbn; try discriminate.
  - discriminate.
Defined.

(** ** Sessions do not touch each other *)

Lemma JsMap_delete_set {V} (k : JsString) (v : V) (m : list (JsString * V)) :
  JsMap.delete k (JsMap.set k v m) = JsMap.delete k m.
Proof.
  induction m as [|[k' v'] m IH]; cbn [JsMap.set JsMap.delete].
  - by destruct (decide (k = k)).
  - destruct (decide (k' = k)) as [->|Hk]; cbn [JsMap.delete].
    + by destruct (decide (k = k)).
    + destruct (decide (k' = k)); [done|]. by rewrite IH.
Qed.

Lemma JsMap_delete_delete {V} (k : JsString) (m : list (JsString * V)) :
  JsMap.delete k (JsMap.delete k m) = JsMap.delete k m.
Proof.
  induction m as [|[k' v'] m IH]; cbn [JsMap.delete]; [done|].
  destruct (decide (k' = k)) as [->|Hk]; [done|].
  cbn [JsMap.delete]. destruct (decide (k' = k)); [done|]. by rewrite IH.
Qed.

Lemma JsMap_get_delete_ne {V} (k k' : JsString) (m : list (JsString * V)) :
  k <> k' -> JsMap.get k' (JsMap.delete k m) = JsMap.get k' m.
Proof.
  intros Hne. induction m as [|[k0 v0] m IH]; cbn [JsMap.delete JsMap.get]; [done|].
  destruct (decide (k0 = k)) as [->|Hk].
  - destruct (decide (k = k')); [done|exact IH].
  - cbn [JsMap.get]. by rewrite IH.
Qed.

Lemma turn_staging kb srv env backend sessionId userMessage attachments :
  JsMap.delete sessionId
    (conversationAttachments
       (server (handleConversation kb srv env backend sessionId userMessage attachments)))
  = JsMap.delete sessionId (conversationAttachments srv)
  /\ tokens (server (handleConversation kb srv env backend sessionId userMessage attachments))
     = tokens srv.
Proof.
  rewrite handleConversation_unfold. cbv zeta.
  destruct (completion (turnRun kb srv env backend sessionId userMessage attachments));
    cbn [server conversationAttachments tokens during].
  - split; [|done].
    destruct (JsMap.has sessionId _); rewrite ?JsMap_delete_delete;
      destruct (nonEmpty attachments); by rewrite ?JsMap_delete_set.
  - split; [|done]. destruct (nonEmpty attachments); by rewrite ?JsMap_delete_set.
Qed.

(** X9. A turn of one session leaves the staging of every other session
    alone: the other entries of [conversationAttachments], and their
    order, are after the turn what they were before it, whether the run
    returned or threw; and the stored tokens are untouched. *)
Theorem turn_keeps_other_sessions_staging
    (kb : N -> JsString) (srv : Server) (env : Environment) (backend : Backend)
    (sessionId userMessage : JsString) (attachments : option (list Attachment)) :
  let t := handleConversation kb srv env backend sessionId userMessage attachments in
  JsMap.delete sessionId (conversationAttachments (server t))
  = JsMap.delete sessionId (conversationAttachments srv)
  /\ (forall other, other <> sessionId -> staged (server t) other = staged srv other)
  /\ tokens (server t) = tokens srv.
Proof.
  intros t. subst t.
  destruct (turn_staging kb srv env backend sessionId userMessage attachments) as [H1 H2].
  split; [exact H1|]. split; [|exact H2].
  intros other Hne. unfold staged.
  rewrite <- (JsMap_get_delete_ne sessionId other
                (conversationAttachments (server _))) by done.
  rewrite H1. by apply JsMap_get_delete_ne.
Qed.

Lemma turn_keeps_other_sessions_staging_witness :
  let srv := {| tokens := Some (lit "ya29.token");
                conversationAttachments := [(lit "session_2", [Sample.g_txt])];
                conversationHistories := ∅ |} in
  staged (server (handleConversation Sample.toFixed1_KB srv Sample.env Sample.answers
                    (lit "session_1") (lit "hi") (Some [Sample.f_txt]))) (lit "session_2")
  = Some [Sample.g_txt].
Proof.
  intros srv.
  apply (turn_keeps_other_sessions_staging Sample.toFixed1_KB srv Sample.env Sample.answers
           (lit "session_1") (lit "hi") (Some [Sample.f_txt])).
  discriminate.
Defined.

(** ** The chat endpoint and the state *)

(** X10. A chat request that is not answered 200 changes nothing: after a
    400, a 401 or a 500 the server state is the one before the request
    (nothing is staged, no history entry is created); and no chat request
    changes the stored tokens. *)
Theorem rejected_chat_changes_nothing
    (kb : N -> JsString) (srv : Server) (now : N) (env : Environment)
    (backend : Backend) (req_body : option ChatBody) :
  (status (chat kb srv now env backend req_body).2 <> 200 ->
   (chat kb srv now env backend req_body).1 = srv)
  /\ tokens (chat kb srv now env backend req_body).1 = tokens srv.
Proof.
  unfold chat. destruct req_body as [b|]; [|done].
  destruct (falsy (body_message b)); [done|].
  destruct (tokens srv) as [tok|] eqn:Htok; cbn [fst snd status]; [|done].
  split; [done|]. rewrite <- Htok. apply turn_staging.
Qed.

Lemma rejected_chat_changes_nothing_witness :
  (chat Sample.toFixed1_KB Sample.fresh 0 Sample.env Sample.answers
     (Some {| body_message := Some []; body_sessionId := Some (lit "session_1");
              body_attachments := Some [Sample.f_txt] |})).1
  = Sample.fresh.
Proof.
  apply (rejected_chat_changes_nothing Sample.toFixed1_KB Sample.fresh 0 Sample.env
           Sample.answers).
  discriminate.
Defined.

(** X11. A chat request without a session id (or with an empty one) is
    recorded under [session_] followed by the handler's clock reading in
    decimal: when its run returns, that session's history gains the user's
    message and the answer; and two clock readings give the same
    generated id only when they are equal. *)
Theorem chat_generates_session_id
    (kb : N -> JsString) (srv : Server) (now : N) (env : Environment)
    (backend : Backend) (b : ChatBody) (tok : JsString) :
  tokens srv = Some tok ->
  falsy (body_message b) = false ->
  falsy (body_sessionId b) = true ->
  let sid := lit "session_" ++ decimal now in
  let out := chat kb srv now env backend (Some b) in
  (forall output,
     json out.2 = {| message := output; success := true |} ->
     history out.1 sid
     = history srv sid
       ++ [ {| role := user; content := default [] (body_message b) |};
            {| role := assistant; content := output |} ])
  /\ (forall now', lit "session_" ++ decimal now' = sid -> now' = now).
Proof.
  intros Htok Hm Hs sid out. split.
  - subst out. unfold chat. rewrite Hm, Htok, Hs. cbn [fst snd json].
    fold sid. intros output Hout.
    assert (E : completion (run (handleConversation kb srv env backend sid
                  (default [] (body_message b)) (body_attachments b))) = Returned output).
    { revert Hout. rewrite handleConversation_run, handleConversation_unfold. cbv zeta.
      destruct (completion (turnRun kb srv env backend sid (default [] (body_message b))
                  (body_attachments b))); cbn [result]; [|done].
      by intros [= ->]. }
    rewrite (history_returned _ _ _ _ _ _ _ output sid E).
    by rewrite decide_True.
  - intros now' E%app_inv_head. by apply decimal_inj.
Qed.

Lemma chat_generates_session_id_witness :
  history (chat Sample.toFixed1_KB Sample.fresh 1730000000000 Sample.env Sample.answers
             (Some {| body_message := Some (lit "hi"); body_sessionId := None;
                      body_attachments := None |})).1
    (lit "session_1730000000000")
  = [ {| role := user; content := lit "hi" |};
      {| role := assistant; content := lit "Hello!" |} ].
Proof.
  destruct (chat_generates_session_id Sample.toFixed1_KB Sample.fresh 1730000000000
              Sample.env Sample.answers
              {| body_message := Some (lit "hi"); body_sessionId := None;
                 body_attachments := None |} (lit "ya29.token") eq_refl eq_refl eq_refl)
    as [H _].
  apply (H (lit "Hello!")). reflexivity.
Defined.

(** ** The REST mail routes *)

(** X12. [POST /api/gmail/send] and [POST /api/gmail/draft] hand an
    envelope to Gmail exactly when tokens are stored, the body could be
    read and [to], [subject] and [body] are all present and not empty, and
    then it is the envelope built from the request alone (the staged
    attachments of the chat sessions are not looked at); they answer 400
    exactly when tokens are stored and one of the three fields is missing,
    200 exactly when Gmail accepted the envelope, and 500 in every other
    case, in particular, not 401, when no tokens are stored. *)
Theorem rest_mail_routes (srv : Server) (w : World) (req_body : option Rest.MailRequest) :
  let authorized_request b :=
    tokens srv <> None /\ req_body = Some b /\ Rest.missing b = false in
  ((forall r, Rest.handed (Rest.send srv w req_body) = Some r <->
      exists b, authorized_request b /\ r = Rest.envelope w b)
   /\ (Rest.code (Rest.send srv w req_body) = 400 <->
       exists b, tokens srv <> None /\ req_body = Some b /\ Rest.missing b = true)
   /\ (Rest.code (Rest.send srv w req_body) = 200 <->
       exists b, authorized_request b /\ messages_send w (Rest.envelope w b) = None)
   /\ (Rest.code (Rest.send srv w req_body) = 200
       \/ Rest.code (Rest.send srv w req_body) = 400
       \/ Rest.code (Rest.send srv w req_body) = 500))
  /\ ((forall r, Rest.handed (Rest.draft srv w req_body) = Some r <->
         exists b, authorized_request b /\ r = Rest.envelope w b)
      /\ (Rest.code (Rest.draft srv w req_body) = 400 <->
          exists b, tokens srv <> None /\ req_body = Some b /\ Rest.missing b = true)
      /\ (Rest.code (Rest.draft srv w req_body) = 200 <->
          exists b id, authorized_request b
                       /\ drafts_create w (Rest.envelope w b) = inl id
                       /\ Rest.reply (Rest.draft srv w req_body) = Rest.reply_draft id)
      /\ (Rest.code (Rest.draft srv w req_body) = 200
          \/ Rest.code (Rest.draft srv w req_body) = 400
          \/ Rest.code (Rest.draft srv w req_body) = 500)).
Proof.
  intros authorized_request. subst authorized_request. cbv beta.
  unfold Rest.send, Rest.draft.
  destruct (tokens srv) as [tok|].
  2: { repeat split; try (by intros [=]); try (by intros (? & [] & _));
       try (by intros (? & ? & [] & _)); try (by intros (? & ? & _)); auto. }
  destruct req_body as [b|].
  2: { repeat split; try (by intros [=]); try (by intros (? & (_ & [=] & _) & _));
       try (by intros (? & _ & [=] & _)); try (by intros (? & ? & (_ & [=] & _) & _));
       auto. }
  destruct (Rest.missing b) eqn:Hm.
  - repeat split; try (by intros [=]); auto.
    all: try (by intros (b' & (_ & [= <-] & Hm') & _); congruence).
    all: try (by intros (b' & id & (_ & [= <-] & Hm') & _); congruence).
    all: by (exists b).
  - split.
    + destruct (messages_send w (Rest.envelope w b)) as [e|] eqn:Hs; cbn [Rest.handed Rest.code].
      * repeat split; try (by intros [=]); auto.
        -- intros [= <-]. by exists b.
        -- by intros (b' & (_ & [= <-] & _) & ->).
        -- intros (b' & _ & [= <-] & Hm'). congruence.
        -- intros (b' & (_ & [= <-] & _) & Hs'). congruence.
      * repeat split; try (by intros [=]); auto.
        -- intros [= <-]. by exists b.
        -- by intros (b' & (_ & [= <-] & _) & ->).
        -- intros (b' & _ & [= <-] & Hm'). congruence.
        -- intros _. by exists b.
    + destruct (drafts_create w (Rest.envelope w b)) as [id|e] eqn:Hs;
        cbn [Rest.handed Rest.code Rest.reply].
      * repeat split; try (by intros [=]); auto.
        -- intros [= <-]. by exists b.
        -- by intros (b' & (_ & [= <-] & _) & ->).
        -- intros (b' & _ & [= <-] & Hm'). congruence.
        -- intros _. by exists b, id.
      * repeat split; try (by intros [=]); auto.
        -- intros [= <-]. by exists b.
        -- by intros (b' & (_ & [= <-] & _) & ->).
        -- intros (b' & _ & [= <-] & Hm'). congruence.
        -- intros (b' & id & (_ & [= <-] & _) & Hs' & _). congruence.
Qed.

Lemma rest_mail_routes_witness :
  let b := {| Rest.mr_to := Some (lit "a@x.com"); Rest.mr_subject := Some (lit "Hi");
              Rest.mr_body := Some (lit "Hello"); Rest.mr_cc := None;
              Rest.mr_bcc := None; Rest.mr_attachments := Some [Sample.f_txt] |} in
  Rest.handed (Rest.send Sample.fresh (Sample.world 7) (Some b))
  = Some (Rest.envelope (Sample.world 7) b)
  /\ Rest.code (Rest.send Sample.fresh (Sample.world 7) (Some b)) = 200.
Proof.
  intros b.
  destruct (rest_mail_routes Sample.fresh (Sample.world 7) (Some b))
    as [(H1 & _ & H2 & _) _].
  split.
  - apply H1. exists b. repeat split. discriminate.
  - apply H2. exists b. repeat split. discriminate.
Defined.






(** ** Authorization *)

(** X14. The OAuth callback stores the tokens it is given and nothing
    else: after a successful exchange the server is authorized (the health
    route says so, and a chat request with a message is no longer answered
    401) with staging and histories as they were; after a failed exchange
    it answers 400 and the state, tokens included, is unchanged. *)
Theorem callback_authorizes (srv : Server)
    (getToken : option JsString -> JsString + JsString) (query_code : option JsString) :
  let after := (Rest.callback srv getToken query_code).1 in
  let answer := (Rest.callback srv getToken query_code).2 in
  (forall newTokens, getToken query_code = inl newTokens ->
     answer.1 = 200
     /\ tokens after = Some newTokens
     /\ Rest.authenticated (Rest.health after) = true
     /\ conversationAttachments after = conversationAttachments srv
     /\ conversationHistories after = conversationHistories srv
     /\ forall kb now env backend b,
          falsy (body_message b) = false ->
          status (chat kb after now env backend (Some b)).2 = 200)
  /\ (forall message, getToken query_code = inr message ->
        answer.1 = 400 /\ after = srv).
Proof.
  intros after answer. subst after answer. unfold Rest.callback. split.
  - intros newTokens ->. cbn [fst snd tokens Rest.health Rest.authenticated
                              conversationAttachments conversationHistories].
    repeat split. intros kb now env backend b Hm. unfold chat. by rewrite Hm.
  - by intros message ->.
Qed.

Lemma callback_authorizes_witness :
  let unauthorized := {| tokens := None; conversationAttachments := [];
                         conversationHistories := ∅ |} in
  let granted := (Rest.callback unauthorized (fun _ => inl (lit "ya29.token"))
                    (Some (lit "4/0Ab"))).1 in
  status (chat Sample.toFixed1_KB unauthorized 0 Sample.env Sample.answers
            (Some {| body_message := Some (lit "hi"); body_sessionId := None;
                     body_attachments := None |})).2 = 401
  /\ status (chat Sample.toFixed1_KB granted 0 Sample.env Sample.answers
               (Some {| body_message := Some (lit "hi"); body_sessionId := None;
                        body_attachments := None |})).2 = 200.
Proof.
  intros unauthorized granted. split; [reflexivity|].
  destruct (callback_authorizes unauthorized (fun _ => inl (lit "ya29.token"))
              (Some (lit "4/0Ab"))) as [H _].
  destruct (H (lit "ya29.token") eq_refl) as (_ & _ & _ & _ & _ & Hchat).
  by apply Hchat.
Defined.

(** ** Reading a mail *)

Lemma Payload_nested_ind (P : Inbox.Payload -> Prop) :
  (forall m d, P (Inbox.Part m d None)) ->
  (forall m d l, Forall P l -> P (Inbox.Part m d (Some l))) ->
  forall p, P p.
Proof.
  intros H0 H1. fix IH 1. intros [m d [l|]]; [|apply H0].
  apply H1. induction l as [|q l IHl]; constructor; [apply IH|exact IHl].
Qed.

Lemma extractBody_parts decode m d l :
  Inbox.extractBody decode (Inbox.Part m d (Some l))
  = if Inbox.has_data d then decode (default [] d) else Inbox.firstBody decode l.
Proof.
  cbn [Inbox.extractBody]. destruct (Inbox.has_data d); [done|].
  induction l as [|q l IH]; [done|].
  cbn [Inbox.firstBody]. by rewrite IH.
Qed.

Lemma has_data_Some (d : option JsString) :
  Inbox.has_data d = true -> exists s, d = Some s /\ truthy s = true.
Proof. destruct d as [s|]; cbn; [eauto|done]. Qed.

Lemma extractBody_sound decode (p : Inbox.Payload) :
  Inbox.extractBody decode p = []
  \/ exists d, Inbox.carries d p /\ truthy d = true
               /\ Inbox.extractBody decode p = decode d.
Proof.
  induction p as [m d|m d l IH] using Payload_nested_ind.
  - cbn [Inbox.extractBody]. destruct (Inbox.has_data d) eqn:Hd; [|by left].
    apply has_data_Some in Hd as (s & -> & Hs). right. exists s.
    split; [constructor|done].
  - rewrite extractBody_parts. destruct (Inbox.has_data d) eqn:Hd.
    { apply has_data_Some in Hd as (s & -> & Hs). right. exists s.
      split; [constructor|done]. }
    assert (H : Inbox.firstBody decode l = []
                \/ exists s q, q ∈ l /\ Inbox.carries s q /\ truthy s = true
                               /\ Inbox.firstBody decode l = decode s).
    { clear Hd. induction IH as [|q l Hq _ IHl]; [by left|].
      cbn [Inbox.firstBody].
      destruct (Inbox.is_text (Inbox.mimeType q) && Inbox.has_data (Inbox.data q)) eqn:Ht.
      - apply andb_true_iff in Ht as [_ Ht]. apply has_data_Some in Ht as (s & Hs & Hs').
        right. exists s, q. rewrite Hs. split; [apply list_elem_of_here|].
        split; [|done]. destruct q as [qm qd qp]. cbn in Hs. subst qd. constructor.
      - assert (Hrest : Inbox.firstBody decode l = []
                  \/ exists s q0, q0 ∈ q :: l /\ Inbox.carries s q0 /\ truthy s = true
                                  /\ Inbox.firstBody decode l = decode s).
        { destruct IHl as [E|(s & q0 & Hin & Hc & Hs & E)]; [by left|].
          right. exists s, q0. split; [by apply list_elem_of_further|done]. }
        destruct (Inbox.parts q) as [qp|]; [|exact Hrest].
        cbv zeta. destruct (truthy (Inbox.extractBody decode q)) eqn:Hn; [|exact Hrest].
        destruct Hq as [E|(s & Hc & Hs & E)]; [by rewrite E in Hn|].
        right. exists s, q. split; [apply list_elem_of_here|done]. }
    destruct H as [E|(s & q & Hin & Hc & Hs & E)]; [by left|].
    right. exists s. split; [by eapply Inbox.carries_below|done].
Qed.

(** X15. [extractBody] returns either the empty string or the decoding of
    a non-empty body data that some part of the message carries; when the
    message itself has body data it is that one, whatever its parts; and a
    message none of whose parts carries data has an empty body. *)
Theorem extractBody_returns_carried_data (decode : JsString -> JsString) (p : Inbox.Payload) :
  (Inbox.extractBody decode p = []
   \/ exists d, Inbox.carries d p /\ truthy d = true
                /\ Inbox.extractBody decode p = decode d)
  /\ (forall d, Inbox.data p = Some d -> truthy d = true ->
        Inbox.extractBody decode p = decode d)
  /\ ((forall d, Inbox.carries d p -> truthy d = false) ->
      Inbox.extractBody decode p = []).
Proof.
  split; [apply extractBody_sound|]. split.
  - intros d Hd Ht. destruct p as [m d' ps]. cbn in Hd. subst d'.
    destruct ps as [l|]; [rewrite extractBody_parts|cbn [Inbox.extractBody]];
      cbn [Inbox.has_data]; by rewrite Ht.
  - intros Hnone. destruct (extractBody_sound decode p) as [E|(d & Hc & Ht & _)]; [done|].
    rewrite (Hnone d Hc) in Ht. done.
Qed.

Lemma extractBody_returns_carried_data_witness :
  Inbox.extractBody (fun s => lit "decoded:" ++ s)
    (Inbox.Part (lit "multipart/mixed") (Some (lit "SGk")) (Some []))
  = lit "decoded:SGk".
Proof.
  destruct (extractBody_returns_carried_data (fun s => lit "decoded:" ++ s)
              (Inbox.Part (lit "multipart/mixed") (Some (lit "SGk")) (Some [])))
    as (_ & H & _).
  apply (H (lit "SGk")); reflexivity.
Defined.

(** X16. For a message that has no body data of its own and whose parts
    have no sub-parts (no [parts] field, or an empty [parts] array),
    [extractBody] is the decoding of the first part, in order, that is
    [text/html] or [text/plain] with data, or that has a [parts] array and
    data of any type decoding to a non-empty string; it is the empty
    string when there is no such part. So the data of a part of another
    type (an attachment) is passed over when the part has no [parts] field,
    and returned when it has one, even an empty one. *)
Theorem extractBody_flat_message (decode : JsString -> JsString)
    (m : JsString) (d : option JsString) (l : list Inbox.Payload) :
  Inbox.has_data d = false ->
  Forall (fun q => Inbox.parts q = None \/ Inbox.parts q = Some []) l ->
  Inbox.extractBody decode (Inbox.Part m d (Some l))
  = match List.find (Inbox.yields decode) l with
    | Some q => decode (default [] (Inbox.data q))
    | None => []
    end
  /\ (Forall (fun q => Inbox.parts q = None) l ->
      Inbox.extractBody decode (Inbox.Part m d (Some l))
      = match List.find Inbox.text_with_data l with
        | Some q => decode (default [] (Inbox.data q))
        | None => []
        end).
Proof.
  intros Hd Hl. rewrite extractBody_parts, Hd. split.
  - induction Hl as [|q l Hq _ IH]; [done|].
    cbn [Inbox.firstBody List.find]. unfold Inbox.yields at 1, Inbox.text_with_data.
    destruct (Inbox.is_text (Inbox.mimeType q) && Inbox.has_data (Inbox.data q)); [done|].
    cbn [orb]. destruct Hq as [Hq|Hq]; rewrite Hq; [exact IH|].
    cbv zeta. destruct q as [qm qd qp]. cbn in Hq. subst qp.
    rewrite extractBody_parts. cbn [Inbox.data Inbox.firstBody].
    destruct (Inbox.has_data qd); cbn [andb truthy]; [|exact IH].
    by destruct (truthy (decode (default [] qd))).
  - clear Hl. intros Hl. induction Hl as [|q l Hq _ IH]; [done|].
    cbn [Inbox.firstBody List.find]. unfold Inbox.text_with_data at 1.
    destruct (Inbox.is_text (Inbox.mimeType q) && Inbox.has_data (Inbox.data q)); [done|].
    by rewrite Hq.
Qed.

(** A PDF part without [parts] field is passed over; with an empty
    [parts] array the same part is what comes back. *)
Lemma extractBody_flat_message_witness :
  Inbox.extractBody (fun s => s)
    (Inbox.Part (lit "multipart/mixed") None
       (Some [ Inbox.Part (lit "application/pdf") (Some (lit "JVBERi0")) None;
               Inbox.Part (lit "text/plain") (Some (lit "SGk")) None;
               Inbox.Part (lit "text/html") (Some (lit "PGI+")) None ]))
  = lit "SGk"
  /\ Inbox.extractBody (fun s => s)
       (Inbox.Part (lit "multipart/mixed") None
          (Some [ Inbox.Part (lit "application/pdf") (Some (lit "JVBERi0")) (Some []);
                  Inbox.Part (lit "text/plain") (Some (lit "SGk")) None ]))
     = lit "JVBERi0".
Proof.
  split.
  - destruct (extractBody_flat_message (fun s => s) (lit "multipart/mixed") None
      [ Inbox.Part (lit "application/pdf") (Some (lit "JVBERi0")) None;
        Inbox.Part (lit "text/plain") (Some (lit "SGk")) None;
        Inbox.Part (lit "text/html") (Some (lit "PGI+")) None ]) as [_ H].
    + reflexivity.
    + repeat (constructor; [by left|]). constructor.
    + rewrite H; [reflexivity|]. repeat (constructor; [reflexivity|]). constructor.
  - destruct (extractBody_flat_message (fun s => s) (lit "multipart/mixed") None
      [ Inbox.Part (lit "application/pdf") (Some (lit "JVBERi0")) (Some []);
        Inbox.Part (lit "text/plain") (Some (lit "SGk")) None ]) as [H _].
    + reflexivity.
    + constructor; [by right|]. constructor; [by left|]. constructor.
    + rewrite H. reflexivity.
Defined.



(** ** Reading a document *)

Lemma concat_filter_Boolean (l : list JsString) : concat (filter_Boolean l) = concat l.
Proof.
  induction l as [|x l IH]; [done|].
  unfold filter_Boolean in *. cbn [List.filter].
  destruct x as [|c x]; cbn [truthy concat]; [exact IH|]. by rewrite IH.
Qed.

Lemma documentText_allRuns (content : list Docs.Element) :
  Docs.documentText content = Docs.allRuns content.
Proof.
  unfold Docs.documentText, Docs.allRuns. rewrite concat_filter_Boolean.
  rewrite flat_map_concat_map. f_equal. apply List.map_ext.
  intros [runs|]; [|done]. unfold Docs.paragraphText. by rewrite flat_map_concat_map.
Qed.

(** X18. [read_document] shows at most the first 500 code units of the
    document's text, which is every text run of every paragraph in order
    (elements that are no paragraphs and runs without content count for
    nothing); the shown text is a prefix of the document's, the whole of it
    when it has at most 500 code units, and is followed by [...] in both
    cases. *)
Theorem read_document_truncates (srv : Server)
    (documents_get : JsString -> list Docs.Element + JsString)
    (documentId tok : JsString) (content : list Docs.Element) :
  tokens srv = Some tok ->
  documents_get documentId = inl content ->
  exists shown,
    Docs.readDocTool srv documents_get documentId
    = check_mark ++ lit " Content: " ++ shown ++ lit "..."
    /\ shown = take 500 (Docs.allRuns content)
    /\ (length shown <= 500)%nat
    /\ (exists rest, Docs.allRuns content = shown ++ rest)
    /\ ((length (Docs.allRuns content) <= 500)%nat -> shown = Docs.allRuns content).
Proof.
  intros Htok Hget. exists (take 500 (Docs.allRuns content)).
  unfold Docs.readDocTool. rewrite Htok, Hget, documentText_allRuns.
  split; [done|]. split; [done|]. split; [rewrite length_take; lia|].
  split.
  - exists (drop 500 (Docs.allRuns content)). by rewrite take_drop.
  - intros H. by apply take_ge.
Qed.

Lemma read_document_truncates_witness :
  Docs.readDocTool Sample.fresh
    (fun _ => inl [ Some [Some (lit "Hello, "); None; Some (lit "world")]; None;
                    Some [Some [10]] ])
    (lit "doc-1")
  = check_mark ++ lit " Content: Hello, world" ++ [10] ++ lit "...".
Proof.
  destruct (read_document_truncates Sample.fresh
              (fun _ => inl [ Some [Some (lit "Hello, "); None; Some (lit "world")]; None;
                              Some [Some [10]] ])
              (lit "doc-1") (lit "ya29.token")
              [ Some [Some (lit "Hello, "); None; Some (lit "world")]; None; Some [Some [10]] ]
              eq_refl eq_refl) as (shown & -> & -> & _).
  reflexivity.
Defined.

(** ** Calendar events *)

Lemma split_comma_length (s : JsString) :
  length (split_comma s) = S (length (List.filter (N.eqb 44) s)).
Proof.
  induction s as [|c s IH]; [done|]. cbn [split_comma List.filter].
  destruct (N.eqb_spec c 44) as [->|Hc].
  - cbn [N.eqb Pos.eqb length]. by rewrite IH.
  - replace (44 =? c) with false by (symmetry; apply N.eqb_neq; congruence).
    destruct (split_comma s); cbn [length] in *; lia.
Qed.

(** X19. [add_attendees_to_event] sends the event back with the attendees
    it had, in their order, followed by one new attendee for each
    comma-separated piece of the argument, trimmed, without looking for
    duplicates or empty pieces, and with every other field as the service
    returned it; the count it reports is the number of commas plus one. *)
Theorem add_attendees_appends (srv : Server) (cal : Calendar.Service)
    (eventId attendees tok : JsString) (existing : Calendar.Event) :
  tokens srv = Some tok ->
  Calendar.events_get cal eventId = inl existing ->
  let added := Calendar.newAttendees attendees in
  exists resource,
    Calendar.sent (Calendar.addAttendeesToEventTool srv cal eventId attendees)
    = Some resource
    /\ Calendar.attendees resource
       = Some (default [] (Calendar.attendees existing) ++ added)
    /\ List.map Calendar.email added = List.map trim (split_comma attendees)
    /\ length added = S (length (List.filter (N.eqb 44) attendees))
    /\ (Calendar.summary resource, Calendar.description resource,
        Calendar.location resource, Calendar.start resource, Calendar.end_ resource,
        Calendar.event_rest resource)
       = (Calendar.summary existing, Calendar.description existing,
          Calendar.location existing, Calendar.start existing, Calendar.end_ existing,
          Calendar.event_rest existing)
    /\ (Calendar.events_update cal eventId resource = None ->
        Calendar.text (Calendar.addAttendeesToEventTool srv cal eventId attendees)
        = check_mark ++ lit " Added " ++ decimal (N.of_nat (length added))
          ++ lit " attendees").
Proof.
  intros Htok Hget added. unfold Calendar.addAttendeesToEventTool.
  rewrite Htok, Hget. fold added.
  eexists. split.
  - destruct (Calendar.events_update cal eventId _); reflexivity.
  - cbn [Calendar.attendees Calendar.summary Calendar.description Calendar.location
         Calendar.start Calendar.end_ Calendar.event_rest].
    split; [done|]. split.
    + subst added. unfold Calendar.newAttendees. rewrite List.map_map. done.
    + split.
      * subst added. unfold Calendar.newAttendees. rewrite length_map.
        apply split_comma_length.
      * split; [done|]. by intros ->.
Qed.

Lemma add_attendees_appends_witness :
  let existing :=
    {| Calendar.summary := Some (lit "Sync"); Calendar.description := None;
       Calendar.location := None; Calendar.start := None; Calendar.end_ := None;
       Calendar.attendees :=
         Some [ {| Calendar.email := lit "a@x.com";
                   Calendar.attendee_rest := Some (lit "accepted") |} ];
       Calendar.event_rest := [] |} in
  let cal := {| Calendar.events_get := fun _ => inl existing;
                Calendar.events_update := fun _ _ => None |} in
  Calendar.text (Calendar.addAttendeesToEventTool Sample.fresh cal (lit "ev1") (lit "b@x.com, "))
  = check_mark ++ lit " Added 2 attendees".
Proof.
  intros existing cal.
  destruct (add_attendees_appends Sample.fresh cal (lit "ev1") (lit "b@x.com, ")
              (lit "ya29.token") existing eq_refl eq_refl)
    as (resource & Hsent & _ & _ & _ & _ & Htext).
  rewrite Htext; reflexivity.
Defined.

(** X20. [update_calendar_event] changes only what it is given: a field
    passed absent or empty keeps the value the service returned (so an
    empty string cannot clear a summary, description or location), the
    attendees and the untouched fields are sent back as they came, and an
    update with nothing to change sends the event back unchanged; a start
    or end time that is no valid date stops the tool before anything is
    sent. *)
Theorem update_event_patches (toISOString : JsString -> option JsString)
    (srv : Server) (cal : Calendar.Service) (u : Calendar.Update)
    (tok : JsString) (existing : Calendar.Event) :
  tokens srv = Some tok ->
  Calendar.events_get cal (Calendar.up_eventId u) = inl existing ->
  let out := Calendar.updateCalendarEventTool toISOString srv cal u in
  (forall resource, Calendar.sent out = Some resource ->
     Calendar.attendees resource = Calendar.attendees existing
     /\ Calendar.event_rest resource = Calendar.event_rest existing
     /\ (falsy (Calendar.up_summary u) = true ->
         Calendar.summary resource = Calendar.summary existing)
     /\ (falsy (Calendar.up_summary u) = false ->
         Calendar.summary resource = Calendar.up_summary u)
     /\ (falsy (Calendar.up_description u) = true ->
         Calendar.description resource = Calendar.description existing)
     /\ (falsy (Calendar.up_location u) = true ->
         Calendar.location resource = Calendar.location existing)
     /\ (falsy (Calendar.up_startTime u) = true ->
         Calendar.start resource = Calendar.start existing)
     /\ (falsy (Calendar.up_endTime u) = true ->
         Calendar.end_ resource = Calendar.end_ existing))
  /\ (falsy (Calendar.up_summary u) = true ->
      falsy (Calendar.up_description u) = true ->
      falsy (Calendar.up_location u) = true ->
      falsy (Calendar.up_startTime u) = true ->
      falsy (Calendar.up_endTime u) = true ->
      Calendar.sent out = Some existing)
  /\ ((falsy (Calendar.up_startTime u) = false
       /\ toISOString (default [] (Calendar.up_startTime u)) = None)
      \/ (falsy (Calendar.up_endTime u) = false
          /\ toISOString (default [] (Calendar.up_endTime u)) = None) ->
      Calendar.sent out = None
      /\ Calendar.text out
         = cross_mark ++ lit " Error updating event: Invalid time value").
Proof.
  intros Htok Hget out. subst out. unfold Calendar.updateCalendarEventTool.
  rewrite Htok, Hget. unfold Calendar.moved, Calendar.patched. split; [|split].
  - intros resource.
    destruct (falsy (Calendar.up_startTime u));
      [|destruct (toISOString (default [] (Calendar.up_startTime u)))];
      (destruct (falsy (Calendar.up_endTime u));
        [|destruct (toISOString (default [] (Calendar.up_endTime u)))]);
      cbn [Calendar.failed Calendar.sent]; try discriminate;
      (destruct (Calendar.events_update cal _ _); cbn [Calendar.sent];
       intros [= <-];
       cbn [Calendar.attendees Calendar.event_rest Calendar.summary
            Calendar.description Calendar.location Calendar.start Calendar.end_];
       repeat split; try done; by intros ->).
  - intros -> -> -> -> ->. destruct existing.
    cbn [Calendar.summary Calendar.description Calendar.location Calendar.start
         Calendar.end_ Calendar.attendees Calendar.event_rest].
    by destruct (Calendar.events_update cal _ _).
  - intros [[-> ->]|[-> ->]]; [done|].
    destruct (falsy (Calendar.up_startTime u));
      [|destruct (toISOString (default [] (Calendar.up_startTime u)))]; done.
Qed.

Lemma update_event_patches_witness :
  let existing :=
    {| Calendar.summary := Some (lit "Sync"); Calendar.description := None;
       Calendar.location := Some (lit "Room 1"); Calendar.start := None;
       Calendar.end_ := None; Calendar.attendees := None; Calendar.event_rest := [] |} in
  let cal := {| Calendar.events_get := fun _ => inl existing;
                Calendar.events_update := fun _ _ => None |} in
  let u := {| Calendar.up_eventId := lit "ev1"; Calendar.up_summary := Some [];
              Calendar.up_description := None; Calendar.up_startTime := None;
              Calendar.up_endTime := None; Calendar.up_location := Some [] |} in
  Calendar.sent (Calendar.updateCalendarEventTool (fun _ => None) Sample.fresh cal u)
  = Some existing.
Proof.
  intros existing cal u.
  destruct (update_event_patches (fun _ => None) Sample.fresh cal u (lit "ya29.token")
              existing eq_refl eq_refl) as (_ & H & _).
  apply H; reflexivity.
Defined.

(** ** Notion databases *)





